(** * Curie calculator: exchange couplings and critical temperature

    A shallow embedding of [src/solver.py].  The program reads the results of
    a set of spin configurations, keeps the usable ones, assembles the
    neighbour-count design matrix, solves for the Heisenberg exchange
    constants (exactly and by least squares) and turns every coupling vector
    into a mean-field critical temperature.

    Conventions of the embedding.
    - A Python [float] is an exact rational of [Q]: every float is a dyadic
      rational, and the arithmetic of the program is modelled without the
      rounding error of the individual operations.
    - A NumPy 1-d array and a Python list are a [list]; a 2-d array is a list
      of rows.
    - A Python exception is the [Raise] branch of [Result].
    - What the program reads from disk through pymatgen and siman (the parsed
      [vasprun.xml], the magnetisation of [OUTCAR], the neighbour table of a
      structure) is data handed to the model. *)

From Stdlib Require Import String ZArith QArith Qabs Qround Bool Arith Lia List.
From Stdlib Require Import Permutation Sorted.
Import ListNotations.

Local Open Scope Q_scope.

(** ** Exceptions *)

Inductive PyError : Type :=
| AssertionError (msg : string)
| ValueError
| LinAlgError
| ZeroDivisionError
| AttributeError
| IndexError
| FileError.

Inductive Result (A : Type) : Type :=
| Ok (a : A)
| Raise (e : PyError).

Arguments Ok {A} a.
Arguments Raise {A} e.

Definition bind {A B : Type} (c : Result A) (k : A -> Result B) : Result B :=
  match c with
  | Ok a => k a
  | Raise e => Raise e
  end.

Notation "x <- c ;; k" := (bind c (fun x => k))
  (at level 61, c at next level, right associativity).

(** [assert cond, msg] *)
Definition py_assert (cond : bool) (msg : string) : Result unit :=
  if cond then Ok tt else Raise (AssertionError msg).

(** A [for] loop over [xs] whose body updates the variables [s] and may
    raise. *)
Fixpoint for_each {A S : Type} (xs : list A) (body : S -> A -> Result S)
    (s : S) : Result S :=
  match xs with
  | [] => Ok s
  | x :: rest => s' <- body s x ;; for_each rest body s'
  end.

(** ** Comparisons on floats *)

Definition Qltb (x y : Q) : bool := negb (Qle_bool y x).

(** ** Rounding

    [rint] rounds to the nearest integer, a tie going to the even one; it is
    what both Python's [round] and NumPy's [round] do after scaling by a
    power of ten. *)

Definition rint (x : Q) : Z :=
  let f := Qfloor x in
  match Qcompare (x - inject_Z f) (1 # 2) with
  | Lt => f
  | Gt => (f + 1)%Z
  | Eq => if Z.even f then f else (f + 1)%Z
  end.

(** [round(x, ndigits)] and [numpy.round(x, ndigits)] for [ndigits >= 0]. *)
Definition round_digits (x : Q) (ndigits : nat) : Q :=
  inject_Z (rint (x * inject_Z (10 ^ Z.of_nat ndigits)))
  / inject_Z (10 ^ Z.of_nat ndigits).

(** ** The iteration order of a CPython [set] of floats

    [count_nn] builds a [set] of distances and iterates over it; the order of
    that iteration is the order of the slots of CPython's hash table.  This
    module follows [Objects/setobject.c]: open addressing with 9 linear
    probes and a perturbed jump, a table of 8 slots that is rebuilt at four
    times the number of elements once three fifths of it are filled.  The
    hash of a number is its value modulo [2^61 - 1]. *)

Module PySet.

Local Open Scope Z_scope.

Definition P : Z := 2 ^ 61 - 1.

Fixpoint pow_mod (b : Z) (e : positive) (m : Z) : Z :=
  match e with
  | xH => b mod m
  | xO e' => let h := pow_mod b e' m in (h * h) mod m
  | xI e' => let h := pow_mod b e' m in (((h * h) mod m) * b) mod m
  end.

(** [hash(x)] for a rational value [x = m / n] in lowest terms. *)
Definition hash (x : Q) : Z :=
  let r := Qred x in
  let m := Qnum r in
  let n := Zpos (Qden r) in
  let h :=
    if (n mod P =? 0)%Z then 314159%Z
    else ((Z.abs m mod P) * pow_mod n (Z.to_pos (P - 2)) P) mod P in
  let s := if (m <? 0)%Z then (- h)%Z else h in
  if (s =? -1)%Z then (-2)%Z else s.

(** A slot is unused or holds a key with its hash. *)
Definition Table : Type := list (option (Q * Z)).

Definition LINEAR_PROBES : Z := 9.
Definition PERTURB_SHIFT : Z := 5.
Definition PySet_MINSIZE : Z := 8.

Definition mask_of (t : Table) : Z := Z.of_nat (length t) - 1.

Definition slot (t : Table) (i : Z) : option (Q * Z) :=
  nth (Z.to_nat i) t None.

Fixpoint set_slot (t : Table) (i : nat) (e : Q * Z) : Table :=
  match t, i with
  | [], _ => []
  | _ :: rest, O => Some e :: rest
  | s :: rest, S i' => s :: set_slot rest i' e
  end.

(** What a run of probes finds. *)
Inductive Probe : Type :=
| Unused (i : Z)
| Active
| Occupied.

(** The [do ... while (probes--)] of [set_add_entry]: slots [i .. i+probes]. *)
Fixpoint probe_run (t : Table) (key : Q) (h : Z) (i : Z) (probes : nat)
  : Probe :=
  match slot t i with
  | None => Unused i
  | Some (k, hk) =>
      if ((hk =? h)%Z && Qeq_bool k key)%bool then Active
      else match probes with
           | O => Occupied
           | S p => probe_run t key h (i + 1) p
           end
  end.

(** The [while (1)] of [set_add_entry]; [None] when the key is there
    already, else the slot it goes to. *)
Fixpoint find_slot (fuel : nat) (t : Table) (key : Q) (h : Z)
    (i perturb : Z) : option Z :=
  match fuel with
  | O => None
  | S fuel' =>
      let mask := mask_of t in
      let probes := if (i + LINEAR_PROBES <=? mask)%Z then 9%nat else 0%nat in
      match probe_run t key h i probes with
      | Unused j => Some j
      | Active => None
      | Occupied =>
          let perturb' := Z.shiftr perturb PERTURB_SHIFT in
          find_slot fuel' t key h (Z.land (i * 5 + 1 + perturb') mask) perturb'
      end
  end.

(** Enough rounds for the tables met here: a table is never more than three
    fifths full, and the jumps visit every slot once [perturb] is 0. *)
Definition rounds (t : Table) : nat := (64 + 2 * length t)%nat.

Definition insert (t : Table) (key : Q) (h : Z) : option Table :=
  let h64 := (h mod 2 ^ 64)%Z in
  match find_slot (rounds t) t key h (Z.land h64 (mask_of t)) h64 with
  | Some j => Some (set_slot t (Z.to_nat j) (key, h))
  | None => None
  end.

Definition active (t : Table) : list (Q * Z) :=
  flat_map (fun s => match s with Some e => [e] | None => [] end) t.

(** [set_table_resize]: the smallest power of two above [minused], from 8;
    the old entries go into the new table in slot order. *)
Fixpoint new_size (fuel : nat) (size minused : Z) : Z :=
  match fuel with
  | O => size
  | S fuel' =>
      if (size <=? minused)%Z then new_size fuel' (2 * size) minused else size
  end.

Definition empty_table (size : Z) : Table := repeat None (Z.to_nat size).

Definition set_table_resize (t : Table) (minused : Z) : Table :=
  fold_left
    (fun t' e => match insert t' (fst e) (snd e) with
                 | Some t'' => t''
                 | None => t'
                 end)
    (active t)
    (empty_table (new_size 64 PySet_MINSIZE minused)).

(** [set_add_key]. *)
Definition add (t : Table) (key : Q) : Table :=
  match insert t key (hash key) with
  | None => t
  | Some t' =>
      let fill := Z.of_nat (length (active t')) in
      if (fill * 5 <? mask_of t' * 3)%Z then t'
      else set_table_resize t'
             (if (50000 <? fill)%Z then fill * 2 else fill * 4)%Z
  end.

(** [set(xs)]: the elements are added in the order the iterable gives
    them. *)
Definition of_list (xs : list Q) : Table :=
  fold_left add xs (empty_table PySet_MINSIZE).

(** Iterating over the set. *)
Definition iter (t : Table) : list Q := map fst (active t).

End PySet.

(** ** Neighbour-shell vectorizer *)

(** What [st.nn(i=1, n=500, silent=1)] returns for the replicated structure:
    the element and the distance of every neighbour, the atom itself first. *)
Record NeighbourTable : Type := mkNeighbourTable {
  out_el : list string;
  out_dist : list Q
}.

Definition mem_string (x : string) (l : list string) : bool :=
  existsb (String.eqb x) l.

(** A [dict] keeps its keys in insertion order. *)
Definition Dict : Type := list (Q * Z).

(** [d[key] += delta] for a key of the dict. *)
Fixpoint dict_add (d : Dict) (key : Q) (delta : Z) : Dict :=
  match d with
  | [] => []
  | (k, v) :: rest =>
      if Qeq_bool k key then (k, (v + delta)%Z) :: rest
      else (k, v) :: dict_add rest key delta
  end.

Definition values (d : Dict) : list Z := map snd d.

Definition keys (d : Dict) : list Q := map fst d.

(** The inner loop of [count_nn], for one [dist]. *)
Definition count_at (magnetic_atoms : list string)
    (magnetic_dist_lst : list (string * Q)) (dist_neighbNum : Dict) (dist : Q)
  : Dict :=
  fold_left
    (fun d (p : string * Q) =>
       let (el, distance) := p in
       if Qeq_bool dist distance then
         if match nth_error magnetic_atoms 0 with
            | Some m0 => String.eqb el m0
            | None => false
            end
         then dict_add d dist 1
         else if match nth_error magnetic_atoms 1 with
                 | Some m1 => String.eqb el m1
                 | None => false
                 end
         then dict_add d dist (-1)
         else d
       else d)
    magnetic_dist_lst dist_neighbNum.

(** [count_nn]; [None] is the [None] the function returns when the file does
    not exist. *)
Definition count_nn (poscar : option NeighbourTable)
    (magnetic_atoms : list string) : option Dict :=
  match poscar with
  | None => None
  | Some out =>
      let a := combine (tl (out_el out)) (tl (out_dist out)) in
      let unique_dist :=
        PySet.of_list
          (map (fun i => round_digits (snd i) 3)
             (filter (fun i => mem_string (fst i) magnetic_atoms) a)) in
      let magnetic_dist_lst :=
        map (fun p => (fst p, round_digits (snd p) 3))
          (filter (fun p => mem_string (fst p) magnetic_atoms) a) in
      let dist_neighbNum := map (fun d => (d, 0%Z)) (PySet.iter unique_dist) in
      Some (fold_left (count_at magnetic_atoms magnetic_dist_lst)
              (PySet.iter unique_dist) dist_neighbNum)
  end.

(** [get_nn_list]: [.values()] of [None] raises. *)
Definition get_nn_list (poscar : option NeighbourTable)
    (magnetic_atom : string) : Result (list Z) :=
  match count_nn poscar [magnetic_atom; "Po"%string] with
  | Some d => Ok (values d)
  | None => Raise AttributeError
  end.

(** The order of the specification, to compare [get_nn_list] with: the
    shells in ascending order of distance, entry [k] being the net count at
    the [k]-th smallest key. *)
Fixpoint insert_by_key (e : Q * Z) (d : Dict) : Dict :=
  match d with
  | [] => [e]
  | e' :: rest =>
      if Qle_bool (fst e) (fst e') then e :: d
      else e' :: insert_by_key e rest
  end.

Definition sort_by_key (d : Dict) : Dict := fold_right insert_by_key [] d.

Definition ascending_values (d : Dict) : list Z := values (sort_by_key d).

(** A first atom with two Fe neighbours at 3.0, and at 3.5 two Fe, one Po
    and one O. *)
Definition two_shell_table : NeighbourTable :=
  mkNeighbourTable
    ["Fe"; "Fe"; "Fe"; "Po"; "Fe"; "Fe"; "O"]%string
    [0; 3; 3; 7 # 2; 7 # 2; 7 # 2; 7 # 2].

(** ** Configuration validator *)

(** The fields of pymatgen's [Vasprun] the program reads. *)
Record Vasprun : Type := mkVasprun {
  converged : bool;
  converged_electronic : bool;
  converged_ionic : bool;
  final_energy : Q
}.

(** One folder of [vasp_inputs] with the files the program reads for it.  For
    a file that is parsed, [None] says the file is absent, [Some None] that it
    is there and parsing raises, and [Some (Some x)] that parsing gives [x].
    For [OUTCAR] the parsed value is [magnetization[0]['tot']]; [POSCAR] is
    the number of atoms of the structure when it can be read;
    [siman_POSCAR] is the neighbour table of [siman_inputs/POSCAR_<name>],
    [None] when that file does not exist. *)
Record Folder : Type := mkFolder {
  vasprun_xml : option (option Vasprun);
  OSZICAR : bool;
  OUTCAR : option (option Q);
  POSCAR : option nat;
  siman_POSCAR : option NeighbourTable
}.

Definition path_exists {A : Type} (file : option A) : bool :=
  match file with Some _ => true | None => false end.

(** [get_spin]: any exception while reading gives 0. *)
Definition get_spin (outcar : option (option Q)) : Q :=
  match outcar with
  | Some (Some tot) => tot
  | _ => 0
  end.

Definition is_good_structure (struct_folder : Folder) (ref_magmom : Q)
  : Result bool :=
  _ <- py_assert (path_exists (vasprun_xml struct_folder))
         "File vasprun.xml absent! Cant continue :(" ;;
  _ <- py_assert (OSZICAR struct_folder)
         "File OSZICAR absent! Cant continue :(" ;;
  _ <- py_assert (path_exists (OUTCAR struct_folder))
         "File OUTCAR absent! Cant continue :(" ;;
  match vasprun_xml struct_folder with
  | Some (Some vasprun) =>
      (* the product of the three flags is nonzero iff all three hold *)
      if negb (converged vasprun && converged_electronic vasprun
               && converged_ionic vasprun)
      then Ok false
      else if Qltb (Qabs (get_spin (OUTCAR struct_folder)))
                   ((9 # 10) * ref_magmom)
      then Ok false
      else Ok true
  | _ => Ok false
  end.

(** A path of [vasp_inputs] together with what is stored under it. *)
Definition Path : Type := (string * Folder)%type.

(** The listing of [vasp_inputs], in the order [os.listdir] gives it. *)
Definition Listing : Type := list Path.

Fixpoint lookup (name : string) (dir : Listing) : option Folder :=
  match dir with
  | [] => None
  | (n, f) :: rest => if String.eqb n name then Some f else lookup name rest
  end.

(** [OUTCAR] of the reference folder [fm0]; a missing folder is a missing
    file. *)
Definition fm0_outcar (dir : Listing) : option (option Q) :=
  match lookup "fm0" dir with
  | Some f => OUTCAR f
  | None => None
  end.

(** [find_good_structures]; [vasp_inputs] is [None] when the path does not
    exist. *)
Definition find_good_structures (vasp_inputs : option Listing)
  : Result (list Path * list Path) :=
  _ <- py_assert (path_exists vasp_inputs) "Path Does not exist!" ;;
  match vasp_inputs with
  | Some dir =>
      let ref_magmom := get_spin (fm0_outcar dir) in
      for_each dir
        (fun (lists : list Path * list Path) (struct_folder : Path) =>
           let (good_struct_list, bad_struct_list) := lists in
           good <- is_good_structure (snd struct_folder) ref_magmom ;;
           if good
           then Ok (good_struct_list ++ [struct_folder], bad_struct_list)
           else Ok (good_struct_list, bad_struct_list ++ [struct_folder]))
        ([], [])
  | None => Ok ([], [])
  end.

(** The external convergence status of a folder is true. *)
Definition convergence_true (f : Folder) : Prop :=
  exists v, vasprun_xml f = Some (Some v)
            /\ converged v = true
            /\ converged_electronic v = true
            /\ converged_ionic v = true.

(** The three files the validator asserts are there. *)
Definition files_present (f : Folder) : Prop :=
  path_exists (vasprun_xml f) = true
  /\ OSZICAR f = true
  /\ path_exists (OUTCAR f) = true.

(** [OUTCAR] cannot be read: [get_spin] falls into its [except]. *)
Definition unreadable (outcar : option (option Q)) : Prop :=
  match outcar with
  | Some (Some _) => False
  | _ => True
  end.

(** A converged folder with a readable [OUTCAR] of total moment [tot]. *)
Definition converged_folder (tot : Q) : Folder :=
  mkFolder (Some (Some (mkVasprun true true true 0))) true (Some (Some tot))
    None None.

(** A listing whose reference [OUTCAR] is there and cannot be parsed. *)
Definition unreadable_fm0_listing : Listing :=
  [("fm0"%string,
    mkFolder (Some (Some (mkVasprun true true true 0))) true (Some None)
      None None);
   ("afm1"%string, converged_folder (1 # 100))].

(** ** Energies *)

(** [get_ratio]: the number of atoms over [initial_atoms_num]. *)
Definition get_ratio (poscar : option nat) (initial_atoms_num : nat)
  : Result Q :=
  match poscar with
  | None => Raise FileError
  | Some atoms =>
      if (initial_atoms_num =? 0)%nat then Raise ZeroDivisionError
      else Ok (inject_Z (Z.of_nat atoms)
               / inject_Z (Z.of_nat initial_atoms_num))
  end.

Definition energy_list_getter (good_struct_list : list Path)
    (initial_atoms_num : nat) : Result (list Q) :=
  for_each good_struct_list
    (fun E_list struct_folder =>
       match vasprun_xml (snd struct_folder) with
       | Some (Some vasprun) =>
           ratio <- get_ratio (POSCAR (snd struct_folder)) initial_atoms_num ;;
           if Qeq_bool ratio 0 then Raise ZeroDivisionError
           else Ok (E_list ++ [final_energy vasprun / ratio])
       | _ => Raise FileError
       end)
    [].

(** ** NumPy *)

Definition Matrix : Type := list (list Q).

(** The routines of NumPy the program calls, on a matrix and vectors of exact
    numbers: [numpy.argsort] with its default [kind], [numpy.linalg.det],
    [numpy.linalg.solve] and the solution [numpy.linalg.lstsq(a, b)[0]]. *)
Class Numpy : Type := mkNumpy {
  argsort : list Q -> list nat;
  det : Matrix -> Q;
  solve : Matrix -> list Q -> list Q;
  lstsq : Matrix -> list Q -> list Q
}.

(** What NumPy documents of them: [argsort] gives the indices that sort its
    argument in ascending order; the solution of a square system has one
    entry per row and the least-squares solution one entry per column. *)
Record NumpyLaws (np : Numpy) : Prop := mkNumpyLaws {
  argsort_perm : forall v, Permutation (argsort v) (seq 0 (length v));
  argsort_sorted :
    forall v, Sorted Qle (map (fun i => nth i v 0) (argsort v));
  solve_length : forall a b, length (solve a b) = length a;
  lstsq_length : forall a b, length (lstsq a b) = length (hd [] a)
}.

Definition is_square (a : Matrix) : bool :=
  forallb (fun r => (length r =? length a)%nat) a.

(** [numpy.linalg.det] raises on a matrix that is not square. *)
Definition linalg_det {np : Numpy} (a : Matrix) : Result Q :=
  if is_square a then Ok (det a) else Raise LinAlgError.

(** [a[..., -1]]: the last column. *)
Definition last_column (a : Matrix) : Result (list Q) :=
  for_each a
    (fun col r =>
       match r with
       | [] => Raise IndexError
       | _ => Ok (col ++ [last r 0])
       end)
    [].

(** [a[..., :-1]]: all columns but the last. *)
Definition but_last_column (a : Matrix) : Matrix := map (@removelast Q) a.

(** [a[:i, :i]] *)
Definition leading (i : nat) (a : Matrix) : Matrix :=
  map (firstn i) (firstn i a).

(** [a[..., :i]] *)
Definition leading_columns (i : nat) (a : Matrix) : Matrix :=
  map (firstn i) a.

(** [[i[0] for i in results]] *)
Definition first_components (results : list (list Q)) : Result (list Q) :=
  for_each results
    (fun heads x =>
       match x with
       | [] => Raise IndexError
       | x0 :: _ => Ok (heads ++ [x0])
       end)
    [].

(** [numpy.append(numpy.ones([len(m), 1]), m, 1)]: [m] has to be a
    two-dimensional array with as many rows. *)
Definition append_to_ones (m : list (list Z)) : Result Matrix :=
  match m with
  | [] => Raise ValueError
  | r :: _ =>
      if forallb (fun r' => (length r' =? length r)%nat) m
      then Ok (map (fun r' => 1 :: map inject_Z r') m)
      else Raise ValueError
  end.

(** The product of two one-dimensional arrays, with broadcasting. *)
Definition multiply (x y : list Q) : Result (list Q) :=
  if (length x =? length y)%nat
  then Ok (map (fun p => fst p * snd p) (combine x y))
  else if (length y =? 1)%nat then Ok (map (fun a => a * hd 0 y) x)
  else if (length x =? 1)%nat then Ok (map (fun b => hd 0 x * b) y)
  else Raise ValueError.

(** The float [numpy.pi]. *)
Definition pi : Q := 884279719003555 # 281474976710656.

(** Python's [sum]. *)
Definition sum (l : list Q) : Q := fold_left Qplus l 0.

(** ** Design-matrix assembler and ranker *)

Definition nn_matrix_getter (good_struct_list : list Path)
    (magnetic_atom : string) : Result Matrix :=
  let good_structures_number := length good_struct_list in
  nn_matrix <-
    for_each good_struct_list
      (fun nn_matrix struct_folder =>
         nn_list <- get_nn_list (siman_POSCAR (snd struct_folder))
                      magnetic_atom ;;
         Ok (nn_matrix ++ [firstn (good_structures_number - 1) nn_list]))
      [] ;;
  append_to_ones nn_matrix.

(** [nn_matrix * spin * (spin + 1)] *)
Definition scale_by_spin (nn_matrix : Matrix) (spin : Q) : Matrix :=
  map (map (fun x => x * spin * (spin + 1))) nn_matrix.

(** [numpy.append(m, E_list.reshape(len(E_list), 1), axis=1)] *)
Definition append_column (m : Matrix) (E_list : list Q) : Result Matrix :=
  if (length m =? length E_list)%nat
  then Ok (map (fun p => fst p ++ [snd p]) (combine m E_list))
  else Raise ValueError.

(** [m[numpy.argsort(m[:, -1])]] *)
Definition sort_by_last_column {np : Numpy} (m : Matrix) : Result Matrix :=
  col <- last_column m ;;
  Ok (map (fun i => nth i m []) (argsort col)).

(** [sorted_matrix_getter]; [input_POSCAR] is the number of atoms of
    [input_path/POSCAR] when it can be read. *)
Definition sorted_matrix_getter {np : Numpy} (vasp_inputs : option Listing)
    (input_POSCAR : option nat) (magnetic_atom : string) (spin : Q)
  : Result (Matrix * Matrix * list Path * list Path) :=
  lists <- find_good_structures vasp_inputs ;;
  let (good_struct_list, bad_struct_list) := lists in
  match input_POSCAR with
  | None => Raise FileError
  | Some initial_atoms_num =>
      E_list <- energy_list_getter good_struct_list initial_atoms_num ;;
      nn_matrix <- nn_matrix_getter good_struct_list magnetic_atom ;;
      let nn_spin_matrix := scale_by_spin nn_matrix spin in
      full_matrix <- append_column nn_spin_matrix E_list ;;
      sorted_matrix <- sort_by_last_column full_matrix ;;
      Ok (nn_matrix, sorted_matrix, good_struct_list, bad_struct_list)
  end.

(** Two configurations of two atoms each: the reference [fm0], with two
    parallel neighbours at 3.0, and [afm1], with two antiparallel ones. *)
Definition two_configurations : Listing :=
  [("fm0"%string,
    mkFolder (Some (Some (mkVasprun true true true (-10)))) true
      (Some (Some 4)) (Some 2%nat)
      (Some (mkNeighbourTable ["Fe"; "Fe"; "Fe"]%string [0; 3; 3])));
   ("afm1"%string,
    mkFolder (Some (Some (mkVasprun true true true (-19 # 2)))) true
      (Some (Some (-4))) (Some 2%nat)
      (Some (mkNeighbourTable ["Fe"; "Po"; "Po"]%string [0; 3; 3])))].

(** The reference configuration alone. *)
Definition one_configuration : Listing := firstn 1 two_configurations.


(** ** Solvers *)

(** Every row of the sorted matrix has a column for each configuration and
    the column of the energies. *)
Definition wide_enough (sorted_matrix : Matrix) : Prop :=
  Forall (fun r => (length sorted_matrix + 1 <= length r)%nat) sorted_matrix.

(** [exchange_coupling]; [None] is the [None] the function returns when the
    determinant is zero. *)
Definition exchange_coupling {np : Numpy} (matrix : Matrix) (energies : list Q)
  : Result (option (list Q)) :=
  determinant <- linalg_det matrix ;;
  if negb (Qeq_bool determinant 0)
  then Ok (Some (solve matrix energies))
  else Ok None.

Definition j_vector_exact {np : Numpy} (sorted_matrix : Matrix)
  : Result (list Q * list (list Q)) :=
  energies <- last_column sorted_matrix ;;
  let matrix := but_last_column sorted_matrix in
  let matrix_size := length matrix in
  results <-
    for_each (seq 2 (matrix_size + 1 - 2))
      (fun results i =>
         let tmp_matrix := leading i matrix in
         let tmp_energies := firstn i energies in
         solution_vector <- exchange_coupling tmp_matrix tmp_energies ;;
         match solution_vector with
         | Some x => Ok (results ++ [x])
         | None => Ok results
         end)
      [] ;;
  E_geom_list <- first_components results ;;
  let j_vectors_list := map (@tl Q) results in
  Ok (E_geom_list, j_vectors_list).

Definition j_vector_lstsq {np : Numpy} (sorted_matrix : Matrix)
  : Result (list Q * list (list Q)) :=
  let num_of_variables := length sorted_matrix in
  energies <- last_column sorted_matrix ;;
  let matrix := but_last_column sorted_matrix in
  results <-
    for_each (seq 2 (num_of_variables + 1 - 2))
      (fun results i =>
         let tmp_matrix := leading_columns i matrix in
         let x_lstsq := lstsq tmp_matrix energies in
         Ok (results ++ [x_lstsq]))
      [] ;;
  E_geom_list <- first_components results ;;
  let j_vectors_list := map (@tl Q) results in
  Ok (E_geom_list, j_vectors_list).

(** The vocabulary of the properties of the solvers: the energies of the
    rows, the test [if determinant:], the sizes whose leading subsystem
    passes it, and the solution of the leading subsystem of size [i]. *)
Definition energies_of (sorted_matrix : Matrix) : list Q :=
  map (fun r => last r 0) sorted_matrix.




Definition lstsq_solution {np : Numpy} (sorted_matrix : Matrix) (i : nat)
  : list Q :=
  lstsq (leading_columns i (but_last_column sorted_matrix))
    (energies_of sorted_matrix).

(** Three ranked configurations whose first two rows are dependent: the
    subsystem of size 2 is singular and the one of size 3 is not. *)
Definition singular_then_solvable : Matrix :=
  [[1; 1; 0; -10]; [1; 1; 1; -9]; [1; 0; 1; -8]].

(** ** Critical temperature *)

Section Estimator.

(** [physical_constants['Boltzmann constant in eV/K'][0]] of SciPy, a
    positive number. *)
Variable k_B : Q.

Definition Tc_list_getter (j_vector_list : list (list Q)) (z_vector : list Z)
  : Result (list Q) :=
  T_c_list <-
    for_each j_vector_list
      (fun T_c_list j_vector =>
         let z_vector_tmp := firstn (length j_vector) z_vector in
         products <- multiply j_vector (map inject_Z z_vector_tmp) ;;
         let T_c := Qabs (2 * pi * sum products / (3 * k_B)) in
         Ok (T_c_list ++ [T_c]))
      [] ;;
  Ok (map (fun t => round_digits t 1) T_c_list).



End Estimator.

(** ** NumPy in exact arithmetic

    An instance of the interface that computes: a stable insertion sort for
    [argsort], the expansion of the determinant along the first row,
    Cramer's rule for [solve], and for [lstsq] the minimiser of least norm
    through a rank factorisation of the matrix. *)

Module ExactNumpy.

(** Insertion sort of the indices: [i] goes before the first index [j]
    with [before v_i v_j]. *)
Fixpoint insert_index (before : Q -> Q -> bool) (v : list Q) (i : nat)
    (sorted : list nat) : list nat :=
  match sorted with
  | [] => [i]
  | j :: rest =>
      if before (nth i v 0) (nth j v 0) then i :: sorted
      else j :: insert_index before v i rest
  end.

Definition argsort_by (before : Q -> Q -> bool) (v : list Q) : list nat :=
  fold_left (fun sorted i => insert_index before v i sorted)
    (seq 0 (length v)) [].

(** With [<] an index goes after the earlier indices of equal value: the
    sort is stable. *)
Definition argsort : list Q -> list nat := argsort_by Qltb.


Fixpoint remove_nth {A : Type} (j : nat) (l : list A) : list A :=
  match l, j with
  | [], _ => []
  | _ :: rest, O => rest
  | x :: rest, S j' => x :: remove_nth j' rest
  end.

Definition sign (j : nat) : Q := if Nat.even j then 1 else -1.

Fixpoint det_n (n : nat) (a : Matrix) : Q :=
  match n, a with
  | S n', r :: rows =>
      fold_right Qplus 0
        (map (fun j => Qred (sign j * nth j r 0
                             * det_n n' (map (remove_nth j) rows)))
           (seq 0 (length a)))
  | _, _ => 1
  end.

Definition det (a : Matrix) : Q := Qred (det_n (length a) a).

Fixpoint replace_nth {A : Type} (j : nat) (x : A) (l : list A) : list A :=
  match l, j with
  | [], _ => []
  | _ :: rest, O => x :: rest
  | y :: rest, S j' => y :: replace_nth j' x rest
  end.

(** The matrix with column [j] replaced by [b]. *)
Definition replace_column (a : Matrix) (j : nat) (b : list Q) : Matrix :=
  map (fun p => replace_nth j (snd p) (fst p)) (combine a b).

Definition solve (a : Matrix) (b : list Q) : list Q :=
  map (fun j => Qred (det (replace_column a j b) / det a))
    (seq 0 (length a)).

Definition dot (x y : list Q) : Q :=
  Qred (fold_right Qplus 0 (map (fun p => fst p * snd p) (combine x y))).

(** The columns of a matrix with [n] columns. *)
Definition columns (n : nat) (a : Matrix) : Matrix :=
  map (fun j => map (fun r => nth j r 0) a) (seq 0 n).

Definition mat_vec (a : Matrix) (x : list Q) : list Q :=
  map (fun r => dot r x) a.

(** [a * b], for [b] with [n] columns. *)
Definition mat_mul (a : Matrix) (n : nat) (b : Matrix) : Matrix :=
  map (fun r => map (dot r) (columns n b)) a.

(** The first row with a nonzero entry in column [c], and the other rows. *)
Fixpoint find_pivot (c : nat) (rows : Matrix) : option (list Q * Matrix) :=
  match rows with
  | [] => None
  | r :: rest =>
      if Qeq_bool (nth c r 0) 0 then
        match find_pivot c rest with
        | Some (p, others) => Some (p, r :: others)
        | None => None
        end
      else Some (r, rest)
  end.

(** [r - r_c * p], for a pivot row [p] with 1 in column [c]. *)
Definition eliminate (c : nat) (p r : list Q) : list Q :=
  map (fun q => Qred (fst q - nth c r 0 * snd q)) (combine r p).

(** Gauss-Jordan elimination, column by column: the pivot rows found so far,
    their columns, and the rows still to reduce. *)
Fixpoint reduce (cols : list nat) (done : Matrix) (pivots : list nat)
    (remaining : Matrix) : Matrix * list nat :=
  match cols with
  | [] => (done, pivots)
  | c :: cols' =>
      match find_pivot c remaining with
      | None => reduce cols' done pivots remaining
      | Some (p, others) =>
          let p1 := map (fun x => Qred (x / nth c p 0)) p in
          reduce cols' (map (eliminate c p1) done ++ [p1]) (pivots ++ [c])
            (map (eliminate c p1) others)
      end
  end.

(** [a = b * c] with [b] the pivot columns of [a] and [c] the nonzero rows
    of its reduced echelon form; the solution of least norm is
    [c^T (c c^T)^-1 (b^T b)^-1 b^T y]. *)
Definition lstsq (a : Matrix) (y : list Q) : list Q :=
  let n := length (hd [] a) in
  let (c, pivots) := reduce (seq 0 n) [] [] a in
  let r := length pivots in
  let b := map (fun row => map (fun j => nth j row 0) pivots) a in
  let bt := columns r b in
  let u := solve (mat_mul bt r b) (mat_vec bt y) in
  let ct := columns n c in
  let w := solve (mat_mul c r ct) u in
  mat_vec ct w.

#[export] Instance exact : Numpy := mkNumpy argsort det solve lstsq.


End ExactNumpy.

(** ** Vocabulary of the further properties *)

(** The validator returns [True] for the folder of a path. *)
Definition accepted (ref_magmom : Q) (p : Path) : bool :=
  match is_good_structure (snd p) ref_magmom with
  | Ok true => true
  | _ => false
  end.

(** What [energy_list_getter] needs of a folder: a [vasprun.xml] that parses
    and a [POSCAR] with at least one atom. *)
Definition energy_readable (f : Folder) : Prop :=
  (exists v, vasprun_xml f = Some (Some v))
  /\ (exists atoms, POSCAR f = Some atoms /\ atoms <> 0%nat).

(** A function that may raise, applied to the elements of a list in order;
    the first exception ends it. *)
Fixpoint map_result {A B : Type} (f : A -> Result B) (l : list A)
  : Result (list B) :=
  match l with
  | [] => Ok []
  | x :: rest => y <- f x ;; ys <- map_result f rest ;; Ok (y :: ys)
  end.

(** A listing in which no folder converged. *)
Definition unconverged_listing : Listing :=
  [("fm0"%string,
    mkFolder (Some (Some (mkVasprun true false true (-10)))) true
      (Some (Some 4)) (Some 2%nat) None)].

(** The body of the loop of [Tc_list_getter] for one coupling vector: the
    critical temperature before it is rounded. *)
Definition T_c_unrounded (k_B : Q) (j_vector : list Q) (z_vector : list Z)
  : Result Q :=
  products <- multiply j_vector
                (map inject_Z (firstn (length j_vector) z_vector)) ;;
  Ok (Qabs (2 * pi * sum products / (3 * k_B))).

(** ** The run as a whole

    [solver] with what can make it raise.  The text [write_output] builds is
    not modelled, nor are the figures: creating the folder [output], writing
    the file and drawing are taken to succeed, and what is kept of these
    functions is the operations on the data that raise. *)

(** The exceptions of a run: a missing key of [spin_dict], or one of the
    exceptions of the functions called. *)
Inductive SolverError : Type :=
| KeyError (key : string)
| Raised (e : PyError).

Definition spin_dict : list (string * Q) :=
  [("Eu", 5 # 2); ("Fe", 2); ("Co", 3 # 2); ("Ni", 1); ("Cu", 1 # 2);
   ("Sm", 3); ("Nd", 1); ("Gd", 1 # 2)]%string.

(** [d[key]]; [None] is [KeyError]. *)
Fixpoint dict_get (key : string) (d : list (string * Q)) : option Q :=
  match d with
  | [] => None
  | (k, v) :: rest => if String.eqb k key then Some v else dict_get key rest
  end.

(** In [write_output] the line for the couplings in Joule per link divides
    each least-squares vector by [z_vector[:len(j_vector)]]; the shapes have
    to broadcast as for a product. *)
Definition write_output (j_lstsq_list : list (list Q)) (z_vector : list Z)
  : Result unit :=
  for_each j_lstsq_list
    (fun _ j_vector =>
       _ <- multiply j_vector
              (map inject_Z (firstn (length j_vector) z_vector)) ;;
       Ok tt)
    tt.

(** [plot_j_values] reads [j_vector_list[-1]] for the ticks of the axis. *)
Definition plot_j_values (j_vector_list : list (list Q)) : Result unit :=
  match j_vector_list with
  | [] => Raise IndexError
  | _ => Ok tt
  end.

(** [plot_E_tot] takes the minimum and the maximum of the energies. *)
Definition plot_E_tot (sorted_matrix : Matrix) : Result unit :=
  match sorted_matrix with
  | [] => Raise ValueError
  | _ => Ok tt
  end.

(** What a run has computed when it ends. *)
Record Report : Type := mkReport {
  report_nn_matrix : Matrix;
  report_sorted_matrix : Matrix;
  report_good : list Path;
  report_bad : list Path;
  report_z_vector : list Z;
  report_Egeom_exact : list Q;
  report_j_exact : list (list Q);
  report_Tc_exact : list Q;
  report_Egeom_lstsq : list Q;
  report_j_lstsq : list (list Q);
  report_Tc_lstsq : list Q
}.

(** The body of [solver] once the spin is known.  [input_POSCAR] is the
    number of atoms of [input_path/POSCAR] and [input_neighbours] its
    neighbour table, [None] when the file is not there. *)
Definition solver_with_spin {np : Numpy} (k_B : Q)
    (vasp_inputs : option Listing) (input_POSCAR : option nat)
    (input_neighbours : option NeighbourTable) (magnetic_atom : string)
    (spin : Q) : Result Report :=
  matrices <- sorted_matrix_getter vasp_inputs input_POSCAR magnetic_atom
                spin ;;
  let '(nn_matrix, sorted_matrix, good_struct_list, bad_struct_list) :=
    matrices in
  exact <- j_vector_exact sorted_matrix ;;
  let (Egeom_exact_list, j_exact_list) := exact in
  least <- j_vector_lstsq sorted_matrix ;;
  let (Egeom_lstsq_list, j_lstsq_list) := least in
  z_vector <- get_nn_list input_neighbours magnetic_atom ;;
  Tc_exact <- Tc_list_getter k_B j_exact_list z_vector ;;
  Tc_lstsq <- Tc_list_getter k_B j_lstsq_list z_vector ;;
  _ <- write_output j_lstsq_list z_vector ;;
  _ <- (if (length j_exact_list =? 0)%nat then Ok tt
        else plot_j_values j_exact_list) ;;
  _ <- plot_j_values j_lstsq_list ;;
  _ <- plot_E_tot sorted_matrix ;;
  Ok (mkReport nn_matrix sorted_matrix good_struct_list bad_struct_list
        z_vector Egeom_exact_list j_exact_list Tc_exact Egeom_lstsq_list
        j_lstsq_list Tc_lstsq).

Definition solver {np : Numpy} (k_B : Q) (vasp_inputs : option Listing)
    (input_POSCAR : option nat) (input_neighbours : option NeighbourTable)
    (magnetic_atom : string) : SolverError + Report :=
  match dict_get magnetic_atom spin_dict with
  | None => inl (KeyError magnetic_atom)
  | Some spin =>
      match solver_with_spin k_B vasp_inputs input_POSCAR input_neighbours
              magnetic_atom spin with
      | Ok report => inr report
      | Raise e => inl (Raised e)
      end
  end.

(** * Properties *)

(** ** Comparisons and loops *)

Lemma Qltb_lt (x y : Q) : Qltb x y = true <-> x < y.
Proof.
  unfold Qltb. rewrite negb_true_iff.
  split; intro H.
  - apply Qnot_le_lt. intro Hle. apply Qle_bool_iff in Hle. congruence.
  - destruct (Qle_bool y x) eqn:E; [|reflexivity].
    apply Qle_bool_iff in E. exfalso. exact (Qlt_not_le _ _ H E).
Qed.

Lemma Qltb_ge (x y : Q) : Qltb x y = false <-> y <= x.
Proof.
  unfold Qltb. rewrite negb_false_iff. apply Qle_bool_iff.
Qed.

(** A loop that appends one value per element is a [map]. *)
Lemma for_each_append {A B : Type} (f : A -> B) (xs : list A) (acc : list B) :
  for_each xs (fun acc x => Ok (acc ++ [f x])) acc = Ok (acc ++ map f xs).
Proof.
  revert acc. induction xs as [|x xs IH]; intro acc; simpl.
  - rewrite app_nil_r. reflexivity.
  - rewrite IH, <- app_assoc. reflexivity.
Qed.

(** ** Validator *)

Lemma is_good_structure_converged (f : Folder) (ref_magmom : Q) :
  files_present f -> convergence_true f ->
  is_good_structure f ref_magmom
  = Ok (negb (Qltb (Qabs (get_spin (OUTCAR f))) ((9 # 10) * ref_magmom))).
Proof.
  intros (Hv & Ho & Hc) (v & Ev & C1 & C2 & C3).
  unfold is_good_structure. rewrite Hv, Ho, Hc. simpl.
  rewrite Ev, C1, C2, C3. simpl.
  destruct (Qltb _ _); reflexivity.
Qed.

Lemma is_good_structure_returns (f : Folder) (ref_magmom : Q) :
  files_present f -> exists b, is_good_structure f ref_magmom = Ok b.
Proof.
  intros (Hv & Ho & Hc).
  unfold is_good_structure. rewrite Hv, Ho, Hc. simpl.
  destruct (vasprun_xml f) as [[v|]|]; try (eexists; reflexivity).
  destruct (negb _); [eexists; reflexivity|].
  destruct (Qltb _ _); eexists; reflexivity.
Qed.




Lemma is_good_structure_zero_reference (f : Folder) (ref_magmom : Q) :
  ref_magmom == 0 -> files_present f -> convergence_true f ->
  is_good_structure f ref_magmom = Ok true.
Proof.
  intros Hz Hf Hc.
  rewrite (is_good_structure_converged f ref_magmom Hf Hc).
  f_equal. apply negb_true_iff, Qltb_ge.
  rewrite Hz, Qmult_0_r. apply Qabs_nonneg.
Qed.

Lemma get_spin_unreadable (outcar : option (option Q)) :
  unreadable outcar -> get_spin outcar = 0.
Proof.
  destruct outcar as [[tot|]|]; simpl; intro H; [destruct H| |]; reflexivity.
Qed.

(** The loop of [find_good_structures] keeps what is in the good list and
    adds every folder the validator accepts. *)
Lemma classify_loop (ref_magmom : Q) (dir : Listing) :
  (forall p, In p dir -> files_present (snd p)) ->
  forall good0 bad0,
  exists good bad,
    for_each dir
      (fun (lists : list Path * list Path) (struct_folder : Path) =>
         let (good_struct_list, bad_struct_list) := lists in
         good <- is_good_structure (snd struct_folder) ref_magmom ;;
         if good
         then Ok (good_struct_list ++ [struct_folder], bad_struct_list)
         else Ok (good_struct_list, bad_struct_list ++ [struct_folder]))
      (good0, bad0) = Ok (good, bad)
    /\ (forall p, In p good0 -> In p good)
    /\ (forall p, In p dir ->
        is_good_structure (snd p) ref_magmom = Ok true -> In p good).
Proof.
  induction dir as [|p dir IH]; intros Hfiles good0 bad0.
  - exists good0, bad0. simpl. repeat split; auto. intros p [].
  - simpl.
    destruct (is_good_structure_returns (snd p) ref_magmom
                (Hfiles p (or_introl eq_refl))) as [b Eb].
    rewrite Eb. simpl.
    assert (Hrest : forall q, In q dir -> files_present (snd q))
      by (intros q Hq; apply Hfiles; right; exact Hq).
    destruct b.
    + destruct (IH Hrest (good0 ++ [p]) bad0)
        as (good & bad & E & Hkeep & Hadd).
      exists good, bad. split; [exact E|]. split.
      * intros q Hq. apply Hkeep, in_or_app. left. exact Hq.
      * intros q [->|Hq] Hgood.
        -- apply Hkeep, in_or_app. right. left. reflexivity.
        -- apply Hadd; assumption.
    + destruct (IH Hrest good0 (bad0 ++ [p]))
        as (good & bad & E & Hkeep & Hadd).
      exists good, bad. split; [exact E|]. split; [exact Hkeep|].
      intros q [->|Hq] Hgood.
      * rewrite Eb in Hgood. discriminate Hgood.
      * apply Hadd; assumption.
Qed.

(** C10: when the [OUTCAR] of the reference folder cannot be read the
    reference moment is 0 and the spin check rejects nothing: every folder
    whose convergence status is true is classified valid and is in the list
    of good structures. *)
Theorem unreadable_reference_accepts_converged (dir : Listing) :
  unreadable (fm0_outcar dir) ->
  (forall p, In p dir -> files_present (snd p)) ->
  get_spin (fm0_outcar dir) = 0
  /\ exists good bad,
       find_good_structures (Some dir) = Ok (good, bad)
       /\ forall p, In p dir -> convergence_true (snd p) ->
            ~ Qabs (get_spin (OUTCAR (snd p)))
              < (9 # 10) * get_spin (fm0_outcar dir)
            /\ is_good_structure (snd p) (get_spin (fm0_outcar dir)) = Ok true
            /\ In p good.
Proof.
  intros Hun Hfiles.
  assert (Hz := get_spin_unreadable _ Hun).
  split; [exact Hz|].
  unfold find_good_structures. simpl.
  destruct (classify_loop (get_spin (fm0_outcar dir)) dir Hfiles [] [])
    as (good & bad & E & _ & Hadd).
  exists good, bad. split; [exact E|].
  intros p Hp Hc.
  assert (Hgood : is_good_structure (snd p) (get_spin (fm0_outcar dir))
                  = Ok true).
  { apply is_good_structure_zero_reference;
      [rewrite Hz; reflexivity|apply Hfiles; exact Hp|exact Hc]. }
  split; [|split].
  - rewrite Hz, Qmult_0_r. apply Qle_not_lt, Qabs_nonneg.
  - exact Hgood.
  - apply Hadd; assumption.
Qed.

Lemma unreadable_reference_accepts_converged_witness :
  exists good bad,
    find_good_structures (Some unreadable_fm0_listing) = Ok (good, bad)
    /\ In ("afm1"%string, converged_folder (1 # 100)) good.
Proof.
  assert (Hfiles : forall p, In p unreadable_fm0_listing ->
                             files_present (snd p)).
  { intros p [<-|[<-|[]]]; repeat split. }
  destruct (unreadable_reference_accepts_converged unreadable_fm0_listing
              I Hfiles) as (_ & good & bad & E & H).
  exists good, bad. split; [exact E|].
  apply (H ("afm1"%string, converged_folder (1 # 100))).
  - right. left. reflexivity.
  - eexists. repeat split.
Defined.

(** ** Vectorizer *)

(** C4 at a failing input.  The first atom of [two_shell_table] has a shell
    at 3.0 with net count 2 and a shell at 3.5 with net count 1.  The set of
    the two distances is iterated as 3.5, 3.0, so the vector [count_nn] and
    [get_nn_list] give is 1, 2: the farther shell comes first, where the
    order of ascending distance is 2, 1. *)
Theorem get_nn_list_not_ascending :
  count_nn (Some two_shell_table) ["Fe"; "Po"]%string
  = Some [(3500 # 1000, 1%Z); (3000 # 1000, 2%Z)]
  /\ get_nn_list (Some two_shell_table) "Fe" = Ok [1%Z; 2%Z]
  /\ ascending_values [(3500 # 1000, 1%Z); (3000 # 1000, 2%Z)] = [2%Z; 1%Z]
  /\ ~ Sorted Qle (keys [(3500 # 1000, 1%Z); (3000 # 1000, 2%Z)]).
Proof.
  split; [vm_compute; reflexivity|].
  split; [vm_compute; reflexivity|].
  split; [vm_compute; reflexivity|].
  intro H. inversion H as [|x l _ Hhd]; subst.
  inversion Hhd as [|y l' Hle]; subst.
  vm_compute in Hle. apply Hle. reflexivity.
Qed.

(** ** Assembler *)

Lemma nn_rows_loop (atom : string) (n : nat) (good : list Path)
    (nns : list (list Z)) :
  Forall2 (fun p nn => get_nn_list (siman_POSCAR (snd p)) atom = Ok nn)
    good nns ->
  forall acc,
  for_each good
    (fun nn_matrix struct_folder =>
       nn_list <- get_nn_list (siman_POSCAR (snd struct_folder)) atom ;;
       Ok (nn_matrix ++ [firstn n nn_list]))
    acc
  = Ok (acc ++ map (firstn n) nns).
Proof.
  induction 1 as [|p nn good nns Hp _ IH]; intro acc; simpl.
  - rewrite app_nil_r. reflexivity.
  - rewrite Hp. simpl. rewrite IH, <- app_assoc. reflexivity.
Qed.

Lemma append_to_ones_rectangular (n : nat) (m : list (list Z)) :
  m <> [] -> Forall (fun r => length r = n) m ->
  append_to_ones m = Ok (map (fun r => 1 :: map inject_Z r) m).
Proof.
  intros Hne Hall. unfold append_to_ones.
  destruct m as [|r m]; [contradiction|].
  assert (E : forallb (fun r' => (length r' =? length r)%nat) (r :: m) = true).
  { apply forallb_forall. intros r' Hr'. apply Nat.eqb_eq.
    rewrite Forall_forall in Hall.
    rewrite (Hall r' Hr'), (Hall r (or_introl eq_refl)). reflexivity. }
  rewrite E. reflexivity.
Qed.

Lemma nth_map_Qeq (f : Q -> Q) (row : list Q) (k : nat) :
  f 0 == 0 -> nth k (map f row) 0 == f (nth k row 0).
Proof.
  intro H0. revert k.
  induction row as [|x row IH]; intros [|k]; simpl;
    try (symmetry; exact H0); try reflexivity.
  apply IH.
Qed.

(** C1, as the code has it: row [i] of the design matrix is
    [1, shell_1, ..., shell_(N-1)] of configuration [i] with every entry,
    the leading 1 included, multiplied by [S(S+1)]; the leading entry of
    every row is [S(S+1)]. *)
Theorem design_matrix_rows (good : list Path) (atom : string) (spin : Q)
    (nns : list (list Z)) :
  good <> [] ->
  Forall2 (fun p nn => get_nn_list (siman_POSCAR (snd p)) atom = Ok nn)
    good nns ->
  Forall (fun nn => (length good - 1 <= length nn)%nat) nns ->
  exists nn_matrix,
    nn_matrix_getter good atom = Ok nn_matrix
    /\ nn_matrix
       = map (fun nn => 1 :: map inject_Z (firstn (length good - 1) nn)) nns
    /\ (forall i k,
          nth k (nth i (scale_by_spin nn_matrix spin) []) 0
          == nth k (nth i nn_matrix []) 0 * (spin * (spin + 1)))
    /\ Forall (fun row => hd 0 row == spin * (spin + 1))
         (scale_by_spin nn_matrix spin).
Proof.
  intros Hne Hnn Hlen.
  exists (map (fun nn => 1 :: map inject_Z (firstn (length good - 1) nn)) nns).
  split; [|split; [reflexivity|split]].
  - unfold nn_matrix_getter.
    rewrite (nn_rows_loop atom (length good - 1) good nns Hnn []). simpl.
    rewrite (append_to_ones_rectangular (length good - 1)).
    + rewrite map_map. reflexivity.
    + destruct nns; [inversion Hnn; subst; contradiction|discriminate].
    + apply Forall_forall. intros r Hr.
      apply in_map_iff in Hr. destruct Hr as (nn' & <- & Hin).
      rewrite Forall_forall in Hlen.
      rewrite length_firstn. apply Nat.min_l, Hlen, Hin.
  - intros i k. unfold scale_by_spin.
    change (@nil Q) with (map (fun x => x * spin * (spin + 1)) []) at 1.
    rewrite map_nth.
    rewrite (nth_map_Qeq (fun x => x * spin * (spin + 1))); [|ring].
    ring.
  - unfold scale_by_spin. rewrite map_map.
    apply Forall_forall. intros row Hrow.
    apply in_map_iff in Hrow. destruct Hrow as (nn & <- & _).
    simpl. ring.
Qed.

Lemma design_matrix_rows_witness :
  exists nn_matrix,
    nn_matrix_getter two_configurations "Fe" = Ok nn_matrix
    /\ Forall (fun row => hd 0 row == 2 * (2 + 1)) (scale_by_spin nn_matrix 2).
Proof.
  assert (Hne : two_configurations <> []) by discriminate.
  assert (Hnn : Forall2
                  (fun p nn => get_nn_list (siman_POSCAR (snd p)) "Fe" = Ok nn)
                  two_configurations [[2%Z]; [(-2)%Z]]).
  { repeat constructor; vm_compute; reflexivity. }
  assert (Hlen : Forall
                   (fun nn => (length two_configurations - 1 <= length nn)%nat)
                   [[2%Z]; [(-2)%Z]]).
  { repeat constructor. }
  destruct (design_matrix_rows two_configurations "Fe" 2 [[2%Z]; [(-2)%Z]]
              Hne Hnn Hlen) as (nn_matrix & E & _ & _ & Hhd).
  exists nn_matrix. split; [exact E|exact Hhd].
Defined.

(** C1 as it is stated fails: for the two configurations above and spin 2
    the rows of the design matrix are 6, 12 and 6, -12; the leading entry of
    each row is 6 = S(S+1), not 1. *)
Lemma design_matrix_leading_entry_scaled :
  exists nn_matrix sorted_matrix good bad,
    sorted_matrix_getter (np := ExactNumpy.exact) (Some two_configurations)
      (Some 2%nat) "Fe" 2
    = Ok (nn_matrix, sorted_matrix, good, bad)
    /\ nn_matrix = [[1; 2]; [1; -2]]
    /\ map (firstn 2) sorted_matrix = [[6; 12]; [6; -12]]
    /\ Forall (fun row => ~ hd 0 row == 1) sorted_matrix.
Proof.
  eexists _, _, _, _.
  split; [vm_compute; reflexivity|].
  split; [reflexivity|]. split; [reflexivity|].
  repeat constructor; discriminate.
Qed.

(** ** The exact instance meets what NumPy documents *)

Section InsertionArgsort.

Variable before : Q -> Q -> bool.
Hypothesis before_true : forall x y, before x y = true -> x <= y.
Hypothesis before_false : forall x y, before x y = false -> y <= x.

Variable v : list Q.

Let value (i : nat) : Q := nth i v 0.

Lemma insert_index_perm (i : nat) (l : list nat) :
  Permutation (ExactNumpy.insert_index before v i l) (i :: l).
Proof.
  induction l as [|j l IH]; simpl; [reflexivity|].
  destruct (before _ _); [reflexivity|].
  rewrite IH. apply perm_swap.
Qed.

Lemma insert_index_hd (i j : nat) (l : list nat) :
  value j <= value i ->
  HdRel Qle (value j) (map value l) ->
  HdRel Qle (value j) (map value (ExactNumpy.insert_index before v i l)).
Proof.
  intros Hji Hhd. destruct l as [|k l]; simpl.
  - constructor. exact Hji.
  - fold (value i). fold (value k).
    destruct (before (value i) (value k)); simpl; constructor.
    + exact Hji.
    + inversion Hhd; subst. assumption.
Qed.

Lemma insert_index_sorted (i : nat) (l : list nat) :
  Sorted Qle (map value l) ->
  Sorted Qle (map value (ExactNumpy.insert_index before v i l)).
Proof.
  induction l as [|j l IH]; simpl; intro Hs.
  - repeat constructor.
  - fold (value i). fold (value j).
    destruct (before (value i) (value j)) eqn:E; simpl.
    + constructor; [exact Hs|]. constructor. apply before_true. exact E.
    + inversion Hs; subst. constructor.
      * apply IH. assumption.
      * apply insert_index_hd; [apply before_false; exact E|assumption].
Qed.

Lemma argsort_by_loop (xs acc : list nat) :
  Sorted Qle (map value acc) ->
  let r := fold_left (fun sorted i => ExactNumpy.insert_index before v i sorted)
             xs acc in
  Permutation r (acc ++ xs) /\ Sorted Qle (map value r).
Proof.
  revert acc. induction xs as [|x xs IH]; intros acc Hs; simpl.
  - rewrite app_nil_r. split; [reflexivity|exact Hs].
  - destruct (IH (ExactNumpy.insert_index before v x acc)
                (insert_index_sorted x acc Hs)) as [Hp Hsorted].
    split; [|exact Hsorted].
    eapply Permutation_trans; [exact Hp|].
    eapply Permutation_trans;
      [apply Permutation_app_tail, insert_index_perm|].
    simpl. apply Permutation_cons_app. reflexivity.
Qed.

Lemma argsort_by_laws :
  Permutation (ExactNumpy.argsort_by before v) (seq 0 (length v))
  /\ Sorted Qle (map (fun i => nth i v 0) (ExactNumpy.argsort_by before v)).
Proof.
  apply (argsort_by_loop (seq 0 (length v)) []). constructor.
Qed.

End InsertionArgsort.

Lemma solve_exact_length (a : Matrix) (b : list Q) :
  length (ExactNumpy.solve a b) = length a.
Proof.
  unfold ExactNumpy.solve. rewrite length_map, length_seq. reflexivity.
Qed.

Lemma lstsq_exact_length (a : Matrix) (b : list Q) :
  length (ExactNumpy.lstsq a b) = length (hd [] a).
Proof.
  unfold ExactNumpy.lstsq.
  destruct (ExactNumpy.reduce _ _ _ _) as [c pivots].
  unfold ExactNumpy.mat_vec, ExactNumpy.columns.
  rewrite !length_map, length_seq. reflexivity.
Qed.


Lemma exact_laws : NumpyLaws ExactNumpy.exact.
Proof.
  constructor; simpl.
  - intro v. apply (argsort_by_laws Qltb).
    + intros x y H. apply Qlt_le_weak, Qltb_lt, H.
    + intros x y H. apply Qltb_ge, H.
  - intro v. apply (argsort_by_laws Qltb).
    + intros x y H. apply Qlt_le_weak, Qltb_lt, H.
    + intros x y H. apply Qltb_ge, H.
  - apply solve_exact_length.
  - apply lstsq_exact_length.
Qed.


(** ** Ranker *)

Lemma last_column_loop (m : Matrix) (acc : list Q) :
  Forall (fun r => r <> []) m ->
  for_each m
    (fun col r =>
       match r with
       | [] => Raise IndexError
       | _ => Ok (col ++ [last r 0])
       end)
    acc
  = Ok (acc ++ map (fun r => last r 0) m).
Proof.
  intro H. revert acc.
  induction H as [|r m Hr _ IH]; intro acc; simpl.
  - rewrite app_nil_r. reflexivity.
  - destruct r as [|x r]; [contradiction|].
    simpl bind. rewrite IH, <- app_assoc. reflexivity.
Qed.

Lemma last_column_rows (m : Matrix) :
  Forall (fun r => r <> []) m ->
  last_column m = Ok (map (fun r => last r 0) m).
Proof.
  intro H. unfold last_column. rewrite (last_column_loop m [] H). reflexivity.
Qed.

Lemma rows_by_position {A : Type} (m : list A) (d : A) :
  map (fun i => nth i m d) (seq 0 (length m)) = m.
Proof.
  induction m as [|x m IH]; simpl; [reflexivity|].
  f_equal. rewrite <- seq_shift, map_map. exact IH.
Qed.




(** ** Solvers *)



Lemma first_components_loop (results : list (list Q)) (acc : list Q) :
  Forall (fun x => x <> []) results ->
  for_each results
    (fun heads x =>
       match x with
       | [] => Raise IndexError
       | x0 :: _ => Ok (heads ++ [x0])
       end)
    acc
  = Ok (acc ++ map (hd 0) results).
Proof.
  intro H. revert acc.
  induction H as [|x results Hx _ IH]; intro acc; simpl.
  - rewrite app_nil_r. reflexivity.
  - destruct x as [|x0 x]; [contradiction|].
    simpl bind. rewrite IH, <- app_assoc. reflexivity.
Qed.

Lemma first_components_heads (results : list (list Q)) :
  Forall (fun x => x <> []) results ->
  first_components results = Ok (map (hd 0) results).
Proof.
  intro H. unfold first_components.
  rewrite (first_components_loop results [] H). reflexivity.
Qed.


Lemma length_removelast {A : Type} (l : list A) :
  length (removelast l) = (length l - 1)%nat.
Proof.
  rewrite removelast_firstn_len, length_firstn. lia.
Qed.

Lemma in_firstn {A : Type} (n : nat) (l : list A) (x : A) :
  In x (firstn n l) -> In x l.
Proof.
  intro H. rewrite <- (firstn_skipn n l). apply in_or_app. left. exact H.
Qed.

Lemma in_range (i n : nat) :
  In i (seq 2 (n + 1 - 2)) <-> (2 <= i <= n)%nat.
Proof.
  rewrite in_seq. lia.
Qed.



Section Solvers.

Context {np : Numpy}.
Hypothesis laws : NumpyLaws np.





End Solvers.













Lemma nth_map_seq {B : Type} (g : nat -> B) (d : B) (a n k : nat) :
  (k < n)%nat -> nth k (map g (seq a n)) d = g (a + k)%nat.
Proof.
  intro Hk. apply nth_error_nth.
  rewrite nth_error_map.
  rewrite (nth_error_nth' (seq a n) 0%nat) by (rewrite length_seq; exact Hk).
  rewrite seq_nth by exact Hk. reflexivity.
Qed.






(** C9, as the code has it: with fewer than two configurations neither
    solver raises; each returns the empty sequence of geometric energies and
    the empty sequence of coupling vectors. *)
Theorem solvers_empty_below_two (np : Numpy) (sm : Matrix) :
  (length sm < 2)%nat -> Forall (fun r => r <> []) sm ->
  j_vector_exact sm = Ok ([], []) /\ j_vector_lstsq sm = Ok ([], []).
Proof.
  intros HN Hne.
  unfold j_vector_exact, j_vector_lstsq.
  rewrite (last_column_rows sm Hne). simpl bind.
  unfold but_last_column. rewrite length_map.
  replace (length sm + 1 - 2)%nat with 0%nat by lia.
  split; reflexivity.
Qed.

Lemma solvers_empty_below_two_witness :
  j_vector_exact (np := ExactNumpy.exact) [[6; -10]] = Ok ([], [])
  /\ j_vector_lstsq (np := ExactNumpy.exact) [[6; -10]] = Ok ([], []).
Proof.
  apply (solvers_empty_below_two ExactNumpy.exact [[6; -10]]).
  - simpl. lia.
  - repeat constructor. discriminate.
Defined.

(** C9 as it is stated fails: for a single valid configuration the matrix
    is assembled, both solvers return empty sequences without raising, and
    the list of critical temperatures that follows is empty as well. *)
Lemma single_configuration_no_error :
  exists nn_matrix sorted_matrix good bad,
    sorted_matrix_getter (np := ExactNumpy.exact) (Some one_configuration)
      (Some 2%nat) "Fe" 2
    = Ok (nn_matrix, sorted_matrix, good, bad)
    /\ length good = 1%nat
    /\ j_vector_exact (np := ExactNumpy.exact) sorted_matrix = Ok ([], [])
    /\ j_vector_lstsq (np := ExactNumpy.exact) sorted_matrix = Ok ([], [])
    /\ Tc_list_getter (8617333262 # 100000000000000) [] [2%Z] = Ok [].
Proof.
  eexists _, _, _, _.
  split; [vm_compute; reflexivity|].
  repeat split.
Qed.

(** ** Estimator *)

Lemma rint_comp (x y : Q) : x == y -> rint x = rint y.
Proof.
  intro H. unfold rint.
  assert (Ef : Qfloor x = Qfloor y) by (rewrite H; reflexivity).
  rewrite Ef.
  assert (Ec : Qcompare (x - inject_Z (Qfloor y)) (1 # 2)
               = Qcompare (y - inject_Z (Qfloor y)) (1 # 2)).
  { apply Qcompare_comp; [rewrite H|]; reflexivity. }
  rewrite Ec. reflexivity.
Qed.

Lemma round_digits_comp (x y : Q) (ndigits : nat) :
  x == y -> round_digits x ndigits = round_digits y ndigits.
Proof.
  intro H. unfold round_digits.
  rewrite (rint_comp (x * inject_Z (10 ^ Z.of_nat ndigits))
             (y * inject_Z (10 ^ Z.of_nat ndigits))); [reflexivity|].
  rewrite H. reflexivity.
Qed.



Lemma sum_fold_right (l : list Q) (a : Q) :
  fold_left Qplus l a == a + fold_right Qplus 0 l.
Proof.
  revert a. induction l as [|x l IH]; intro a; simpl.
  - ring.
  - rewrite IH. ring.
Qed.





(** ** The matrix the solvers receive *)

Lemma for_each_length {A B : Type} (body : list B -> A -> Result (list B))
    (xs : list A) :
  (forall acc x acc', body acc x = Ok acc' -> length acc' = S (length acc)) ->
  forall acc r, for_each xs body acc = Ok r ->
    length r = (length acc + length xs)%nat.
Proof.
  intro Hbody. induction xs as [|x xs IH]; intros acc r E; simpl in E.
  - injection E as <-. simpl. lia.
  - destruct (body acc x) as [acc'|e] eqn:Eb; simpl in E; [|discriminate E].
    rewrite (IH acc' r E), (Hbody acc x acc' Eb). simpl. lia.
Qed.

Lemma energy_list_length (good : list Path) (n : nat) (E_list : list Q) :
  energy_list_getter good n = Ok E_list -> length E_list = length good.
Proof.
  intro E. unfold energy_list_getter in E.
  apply for_each_length in E; [exact E|].
  intros acc p acc' Eb.
  destruct (vasprun_xml (snd p)) as [[v|]|]; try discriminate Eb.
  destruct (get_ratio _ _) as [ratio|e]; simpl in Eb; [|discriminate Eb].
  destruct (Qeq_bool ratio 0); [discriminate Eb|].
  injection Eb as <-. rewrite length_app. simpl. lia.
Qed.

Lemma nn_lists_exist (good : list Path) (atom : string) (n : nat) :
  Forall (fun p => exists nn_list,
            get_nn_list (siman_POSCAR (snd p)) atom = Ok nn_list
            /\ (n <= length nn_list)%nat) good ->
  exists nns,
    Forall2 (fun p nn => get_nn_list (siman_POSCAR (snd p)) atom = Ok nn)
      good nns
    /\ Forall (fun nn => (n <= length nn)%nat) nns.
Proof.
  induction 1 as [|p good (nn & Hp & Hn) _ (nns & H2 & Hall)].
  - exists []. split; constructor.
  - exists (nn :: nns). split; constructor; assumption.
Qed.

(** The matrix [sorted_matrix_getter] hands to the solvers has one row for
    each good structure and, when every structure has at least [N - 1]
    shells, [N + 1] entries in each row. *)
Lemma sorted_matrix_wide_enough (np : Numpy) (vasp_inputs : option Listing)
    (input_POSCAR : option nat) (atom : string) (spin : Q)
    (nn_matrix sorted_matrix : Matrix) (good bad : list Path) :
  NumpyLaws np ->
  sorted_matrix_getter vasp_inputs input_POSCAR atom spin
  = Ok (nn_matrix, sorted_matrix, good, bad) ->
  Forall (fun p => exists nn_list,
            get_nn_list (siman_POSCAR (snd p)) atom = Ok nn_list
            /\ (length good - 1 <= length nn_list)%nat) good ->
  length sorted_matrix = length good /\ wide_enough sorted_matrix.
Proof.
  intros laws E Hshells. unfold sorted_matrix_getter in E.
  destruct (find_good_structures vasp_inputs) as [[good' bad']|e];
    simpl in E; [|discriminate E].
  destruct input_POSCAR as [n|]; [|discriminate E].
  destruct (energy_list_getter good' n) as [E_list|e] eqn:EE;
    simpl in E; [|discriminate E].
  destruct (nn_matrix_getter good' atom) as [nn|e] eqn:Enn;
    simpl in E; [|discriminate E].
  destruct (append_column (scale_by_spin nn spin) E_list) as [full|e] eqn:Ef;
    simpl in E; [|discriminate E].
  destruct (sort_by_last_column full) as [sm|e] eqn:Es;
    simpl in E; [|discriminate E].
  injection E as <- <- <- <-.
  apply energy_list_length in EE.
  destruct (nn_lists_exist good' atom (length good' - 1) Hshells)
    as (nns & Hnn & Hlen).
  assert (HN : length nns = length good')
    by (symmetry; apply (Forall2_length Hnn)).
  (* the rows before sorting *)
  assert (Hfull : length full = length good'
                  /\ Forall (fun r => length r = (length good' + 1)%nat) full).
  { unfold nn_matrix_getter in Enn.
    rewrite (nn_rows_loop atom (length good' - 1) good' nns Hnn []) in Enn.
    cbn [bind app] in Enn.
    assert (Hne : nns <> []) by (intros ->; discriminate Enn).
    rewrite (append_to_ones_rectangular (length good' - 1)) in Enn.
    - injection Enn as <-.
      unfold append_column, scale_by_spin in Ef.
      rewrite !length_map, HN, EE, Nat.eqb_refl in Ef.
      injection Ef as <-. split.
      + rewrite length_map, length_combine, !length_map. lia.
      + apply Forall_forall. intros r Hr.
        apply in_map_iff in Hr. destruct Hr as ([a e] & <- & Hin).
        apply in_combine_l in Hin.
        apply in_map_iff in Hin. destruct Hin as (a' & <- & Hin).
        apply in_map_iff in Hin. destruct Hin as (a'' & <- & Hin).
        apply in_map_iff in Hin. destruct Hin as (nn' & <- & Hin).
        rewrite Forall_forall in Hlen. specialize (Hlen nn' Hin).
        assert (0 < length good')%nat
          by (destruct nns; [contradiction|simpl in HN; lia]).
        cbn [fst snd]. rewrite length_app, length_map. cbn [length].
        rewrite length_map, length_firstn. lia.
    - intro Hm. apply map_eq_nil in Hm. contradiction.
    - apply Forall_forall. intros r Hr.
      apply in_map_iff in Hr. destruct Hr as (nn' & <- & Hin).
      rewrite Forall_forall in Hlen.
      rewrite length_firstn. apply Nat.min_l, Hlen, Hin. }
  destruct Hfull as [Hrows Hcols].
  (* sorting permutes the rows *)
  unfold sort_by_last_column in Es.
  rewrite last_column_rows in Es.
  - simpl in Es. injection Es as <-.
    assert (Hp := argsort_perm np laws (map (fun r => last r 0) full)).
    rewrite length_map in Hp.
    split.
    + rewrite length_map, (Permutation_length Hp), length_seq. exact Hrows.
    + unfold wide_enough.
      rewrite length_map, (Permutation_length Hp), length_seq, Hrows.
      apply Forall_forall. intros r Hr.
      apply in_map_iff in Hr. destruct Hr as (i & <- & Hi).
      apply (Permutation_in _ Hp), in_seq in Hi.
      rewrite Forall_forall in Hcols.
      rewrite (Hcols (nth i full [])); [lia|].
      apply nth_In. lia.
  - apply Forall_forall. intros r Hr. rewrite Forall_forall in Hcols.
    specialize (Hcols r Hr). destruct r; [simpl in Hcols; lia|discriminate].
Qed.

(** ** Runs of the solvers *)

(** Two rows [1, 2] and [1, 1] with energies -10 and -9.5: the geometric
    energy is -9 and the coupling -0.5. *)
Example j_vector_exact_two_rows :
  j_vector_exact (np := ExactNumpy.exact) [[1; 2; -10]; [1; 1; -19 # 2]]
  = Ok ([-9], [[-1 # 2]]).
Proof. vm_compute. reflexivity. Qed.

(** The size 2 of [singular_then_solvable] has no entry; the sequence starts
    with the solution of size 3.  The least-squares solver answers both
    sizes. *)
Example j_vector_exact_skips_singular :
  j_vector_exact (np := ExactNumpy.exact) singular_then_solvable
  = Ok ([-9], [[-1; 1]])
  /\ j_vector_lstsq (np := ExactNumpy.exact) singular_then_solvable
     = Ok ([-8; -9], [[-3 # 2]; [-1; 1]]).
Proof. split; vm_compute; reflexivity. Qed.

(** With fewer columns than rows the subsystem of size 3 is not square and
    [numpy.linalg.det] raises. *)
Example j_vector_exact_too_few_columns :
  j_vector_exact (np := ExactNumpy.exact)
    [[1; 2; -10]; [1; 1; -9]; [1; 0; -8]]
  = Raise LinAlgError.
Proof. vm_compute. reflexivity. Qed.

(** A reference vector shorter than the coupling vector: one entry is
    broadcast, none or several others raise. *)
Example Tc_list_getter_short_reference :
  Tc_list_getter (8617333262 # 100000000000000) [[1; 1; 1]] [2%Z]
  = Ok [1458267 # 10]
  /\ Tc_list_getter (8617333262 # 100000000000000) [[1; 1; 1]] [2%Z; 5%Z]
     = Raise ValueError.
Proof. split; vm_compute; reflexivity. Qed.


(** * Further properties of the code *)

From Stdlib Require Import Lqa.

(** ** Validator *)

Lemma files_present_dec (f : Folder) : {files_present f} + {~ files_present f}.
Proof.
  unfold files_present.
  destruct (path_exists (vasprun_xml f)), (OSZICAR f),
    (path_exists (OUTCAR f));
    try (left; repeat split; reflexivity);
    right; intros (H1 & H2 & H3); discriminate.
Qed.

Lemma is_good_structure_raises (f : Folder) (ref_magmom : Q) :
  ~ files_present f ->
  exists msg, is_good_structure f ref_magmom = Raise (AssertionError msg).
Proof.
  intro H. unfold is_good_structure, files_present in *.
  destruct (path_exists (vasprun_xml f)); [|eexists; reflexivity].
  destruct (OSZICAR f); [|eexists; reflexivity].
  destruct (path_exists (OUTCAR f)); [|eexists; reflexivity].
  exfalso. apply H. repeat split.
Qed.

Lemma is_good_structure_ok_files (f : Folder) (ref_magmom : Q) (b : bool) :
  is_good_structure f ref_magmom = Ok b -> files_present f.
Proof.
  intro E. destruct (files_present_dec f) as [Hf|Hf]; [exact Hf|].
  destruct (is_good_structure_raises f ref_magmom Hf) as [msg Em].
  rewrite Em in E. discriminate E.
Qed.

(** The validator answers when the three files of the folder are there, and
    only then; when one is missing it raises [AssertionError] and nothing
    else, whatever the reference moment. *)
Theorem is_good_structure_answers_iff_files (f : Folder) (ref_magmom : Q) :
  ((exists b, is_good_structure f ref_magmom = Ok b) <-> files_present f)
  /\ (forall e, is_good_structure f ref_magmom = Raise e ->
       ~ files_present f /\ exists msg, e = AssertionError msg).
Proof.
  destruct (files_present_dec f) as [Hf|Hf].
  - destruct (is_good_structure_returns f ref_magmom Hf) as [b Eb].
    split.
    + split; [intros _; exact Hf|intros _; exists b; exact Eb].
    + intros e E. rewrite Eb in E. discriminate E.
  - destruct (is_good_structure_raises f ref_magmom Hf) as [msg Em].
    split.
    + split; [|contradiction].
      intros [b Eb]. rewrite Em in Eb. discriminate Eb.
    + intros e E. rewrite Em in E. injection E as <-.
      split; [exact Hf|exists msg; reflexivity].
Qed.

(** A folder whose [vasprun.xml] does not parse, or one of whose three
    convergence flags is false, is bad for every reference moment and every
    moment of its own. *)
Theorem is_good_structure_unconverged (f : Folder) (ref_magmom : Q) :
  files_present f -> ~ convergence_true f ->
  is_good_structure f ref_magmom = Ok false.
Proof.
  intros (Hv & Ho & Hc) Hn.
  unfold is_good_structure. rewrite Hv, Ho, Hc. simpl.
  destruct (vasprun_xml f) as [[v|]|] eqn:Ev; try reflexivity.
  destruct (converged v) eqn:C1, (converged_electronic v) eqn:C2,
    (converged_ionic v) eqn:C3; simpl; try reflexivity.
  exfalso. apply Hn. exists v. repeat split; assumption.
Qed.

Lemma is_good_structure_unconverged_witness :
  is_good_structure
    (mkFolder (Some (Some (mkVasprun true false true 0))) true
       (Some (Some 4)) None None) 4
  = Ok false.
Proof.
  apply is_good_structure_unconverged.
  - repeat split.
  - intros (v & Ev & _ & C2 & _). injection Ev as <-. discriminate C2.
Defined.

Lemma own_moment_passes (m : Q) : (9 # 10) * m <= Qabs m.
Proof.
  apply Qle_trans with (Qabs ((9 # 10) * m)).
  - apply Qle_Qabs.
  - rewrite Qabs_Qmult.
    rewrite <- (Qmult_1_l (Qabs m)) at 2.
    apply Qmult_le_compat_r; [discriminate|apply Qabs_nonneg].
Qed.

(** A converged folder passes the spin check against its own moment: the
    reference folder, which is part of the listing, is never dropped for low
    spin, whatever the sign of its moment. *)
Theorem is_good_structure_own_moment (f : Folder) :
  files_present f -> convergence_true f ->
  is_good_structure f (get_spin (OUTCAR f)) = Ok true.
Proof.
  intros Hf Hc.
  rewrite (is_good_structure_converged f _ Hf Hc).
  f_equal. apply negb_true_iff, Qltb_ge, own_moment_passes.
Qed.

Lemma is_good_structure_own_moment_witness :
  is_good_structure (converged_folder (-4)) (-4) = Ok true.
Proof.
  apply (is_good_structure_own_moment (converged_folder (-4))).
  - repeat split.
  - eexists. repeat split.
Defined.

(** Lowering the reference moment never turns a good folder into a bad
    one. *)
Theorem is_good_structure_monotone (f : Folder) (ref ref' : Q) :
  ref' <= ref ->
  is_good_structure f ref = Ok true ->
  is_good_structure f ref' = Ok true.
Proof.
  intros Hle E. unfold is_good_structure in *.
  destruct (py_assert (path_exists (vasprun_xml f)) _); [|discriminate E].
  destruct (py_assert (OSZICAR f) _); [|discriminate E].
  destruct (py_assert (path_exists (OUTCAR f)) _); [|discriminate E].
  simpl in *.
  destruct (vasprun_xml f) as [[v|]|]; try discriminate E.
  destruct (negb _); [discriminate E|].
  destruct (Qltb _ ((9 # 10) * ref)) eqn:E1; [discriminate E|].
  apply Qltb_ge in E1.
  assert (E2 : Qltb (Qabs (get_spin (OUTCAR f))) ((9 # 10) * ref') = false).
  { apply Qltb_ge. apply Qle_trans with ((9 # 10) * ref); [|exact E1].
    rewrite !(Qmult_comm (9 # 10)).
    apply Qmult_le_compat_r; [exact Hle|discriminate]. }
  rewrite E2. reflexivity.
Qed.

Lemma is_good_structure_monotone_witness :
  is_good_structure (converged_folder (19 # 5)) 3 = Ok true.
Proof.
  apply (is_good_structure_monotone (converged_folder (19 # 5)) 4 3).
  - discriminate.
  - reflexivity.
Defined.

Lemma filter_negb_partition {A : Type} (keep : A -> bool) (l : list A) :
  Permutation l (filter keep l ++ filter (fun x => negb (keep x)) l).
Proof.
  induction l as [|x l IH]; simpl; [constructor|].
  destruct (keep x); simpl.
  - constructor. exact IH.
  - apply Permutation_cons_app. exact IH.
Qed.

(** The loop of [find_good_structures], when it ends: the folders the
    validator accepts go to the first list and the others to the second, each
    in the order of the listing. *)
Lemma classify_loop_filter (ref_magmom : Q) (dir : Listing) :
  forall good0 bad0 good bad,
  for_each dir
    (fun (lists : list Path * list Path) (struct_folder : Path) =>
       let (good_struct_list, bad_struct_list) := lists in
       good <- is_good_structure (snd struct_folder) ref_magmom ;;
       if good
       then Ok (good_struct_list ++ [struct_folder], bad_struct_list)
       else Ok (good_struct_list, bad_struct_list ++ [struct_folder]))
    (good0, bad0) = Ok (good, bad) ->
  good = good0 ++ filter (accepted ref_magmom) dir
  /\ bad = bad0 ++ filter (fun p => negb (accepted ref_magmom p)) dir
  /\ Forall (fun p => files_present (snd p)) dir.
Proof.
  induction dir as [|p dir IH]; intros good0 bad0 good bad E; simpl in E.
  - injection E as <- <-. rewrite !app_nil_r. repeat split. constructor.
  - destruct (is_good_structure (snd p) ref_magmom) as [b|e] eqn:Eb;
      simpl in E; [|discriminate E].
    assert (Hp := is_good_structure_ok_files (snd p) ref_magmom b Eb).
    assert (Ea : accepted ref_magmom p = b)
      by (unfold accepted; rewrite Eb; destruct b; reflexivity).
    simpl filter. rewrite Ea.
    destruct b; apply IH in E; destruct E as (-> & -> & Hall); simpl;
      rewrite <- ?app_assoc; repeat split; try constructor; assumption.
Qed.

(** When [find_good_structures] returns, the good list is the listing
    filtered by the validator against the moment of [fm0], the bad list is
    the rest, both in the order of the listing: every folder is in exactly
    one of the two lists. *)
Theorem find_good_structures_partition (dir : Listing)
    (good bad : list Path) :
  find_good_structures (Some dir) = Ok (good, bad) ->
  let ref_magmom := get_spin (fm0_outcar dir) in
  good = filter (accepted ref_magmom) dir
  /\ bad = filter (fun p => negb (accepted ref_magmom p)) dir
  /\ Permutation dir (good ++ bad)
  /\ (length good + length bad = length dir)%nat.
Proof.
  intros E ref_magmom. unfold find_good_structures in E. simpl in E.
  apply classify_loop_filter in E. destruct E as (-> & -> & _).
  simpl. split; [reflexivity|]. split; [reflexivity|].
  assert (Hp := filter_negb_partition (accepted ref_magmom) dir).
  split; [exact Hp|].
  rewrite <- length_app. symmetry. apply Permutation_length, Hp.
Qed.

Lemma find_good_structures_partition_witness :
  Permutation two_configurations (two_configurations ++ []).
Proof.
  assert (E : find_good_structures (Some two_configurations)
              = Ok (two_configurations, [])) by (vm_compute; reflexivity).
  exact (proj1 (proj2 (proj2
           (find_good_structures_partition two_configurations
              two_configurations [] E)))).
Defined.

(** [find_good_structures] returns exactly when the path is there and every
    entry of the listing has its three files: one entry without them makes
    the whole call raise, and no list is returned. *)
Theorem find_good_structures_returns_iff (vasp_inputs : option Listing) :
  (exists lists, find_good_structures vasp_inputs = Ok lists)
  <-> exists dir, vasp_inputs = Some dir
                  /\ Forall (fun p => files_present (snd p)) dir.
Proof.
  split.
  - intros [[good bad] E]. destruct vasp_inputs as [dir|].
    + exists dir. split; [reflexivity|].
      unfold find_good_structures in E. simpl in E.
      apply classify_loop_filter in E. apply E.
    + discriminate E.
  - intros (dir & -> & Hall).
    rewrite Forall_forall in Hall.
    destruct (classify_loop (get_spin (fm0_outcar dir)) dir Hall [] [])
      as (good & bad & E & _).
    exists (good, bad). exact E.
Qed.

(** ** Energies *)

Lemma ratio_zero (atoms n : nat) :
  n <> 0%nat ->
  Qeq_bool (inject_Z (Z.of_nat atoms) / inject_Z (Z.of_nat n)) 0 = true
  <-> atoms = 0%nat.
Proof.
  intro Hn. rewrite Qeq_bool_iff. split.
  - intro H. destruct atoms as [|a]; [reflexivity|]. exfalso.
    assert (Hq : ~ inject_Z (Z.of_nat n) == 0).
    { intro Hz. unfold Qeq in Hz. simpl in Hz. lia. }
    unfold Qdiv in H.
    assert (H' : inject_Z (Z.of_nat (S a)) == 0).
    { rewrite <- (Qmult_1_r (inject_Z (Z.of_nat (S a)))).
      rewrite <- (Qmult_inv_r _ Hq).
      rewrite (Qmult_comm (inject_Z (Z.of_nat n))), Qmult_assoc, H.
      ring. }
    unfold Qeq in H'. simpl in H'. lia.
  - intros ->. reflexivity.
Qed.

(** The loop of [energy_list_getter], when it ends. *)
Lemma energy_loop (n : nat) (good : list Path) :
  forall acc E_list,
  for_each good
    (fun E_list struct_folder =>
       match vasprun_xml (snd struct_folder) with
       | Some (Some vasprun) =>
           ratio <- get_ratio (POSCAR (snd struct_folder)) n ;;
           if Qeq_bool ratio 0 then Raise ZeroDivisionError
           else Ok (E_list ++ [final_energy vasprun / ratio])
       | _ => Raise FileError
       end)
    acc = Ok E_list ->
  exists es,
    E_list = acc ++ es
    /\ Forall2
         (fun p e =>
            exists v atoms,
              vasprun_xml (snd p) = Some (Some v)
              /\ POSCAR (snd p) = Some atoms
              /\ atoms <> 0%nat /\ n <> 0%nat
              /\ e = final_energy v
                      / (inject_Z (Z.of_nat atoms) / inject_Z (Z.of_nat n)))
         good es.
Proof.
  induction good as [|p good IH]; intros acc E_list E; simpl in E.
  - injection E as <-. exists []. rewrite app_nil_r. split; constructor.
  - destruct (vasprun_xml (snd p)) as [[v|]|] eqn:Ev; try discriminate E.
    destruct (get_ratio (POSCAR (snd p)) n) as [ratio|e] eqn:Er;
      [|discriminate E].
    cbn [bind] in E.
    destruct (Qeq_bool ratio 0) eqn:Ez; [discriminate E|].
    cbn [bind] in E.
    apply IH in E. destruct E as (es & -> & Hes).
    unfold get_ratio in Er.
    destruct (POSCAR (snd p)) as [atoms|] eqn:Ep; [|discriminate Er].
    destruct (Nat.eqb_spec n 0) as [Hn|Hn]; [discriminate Er|].
    injection Er as <-.
    eexists (_ :: es). rewrite <- app_assoc. split; [reflexivity|].
    constructor; [|exact Hes].
    exists v, atoms. repeat split; try assumption.
    intros ->. rewrite (proj2 (ratio_zero 0 n Hn) eq_refl) in Ez.
    discriminate Ez.
Qed.

(** When [energy_list_getter] returns there is one energy for each
    structure, in order, and it is the final energy scaled to the initial
    cell: the energy times the atoms of the structure is the final energy
    times [initial_atoms_num]. *)
Theorem energy_list_per_initial_cell (good : list Path) (n : nat)
    (E_list : list Q) :
  energy_list_getter good n = Ok E_list ->
  Forall2
    (fun p e =>
       exists v atoms,
         vasprun_xml (snd p) = Some (Some v)
         /\ POSCAR (snd p) = Some atoms
         /\ e * inject_Z (Z.of_nat atoms)
            == final_energy v * inject_Z (Z.of_nat n))
    good E_list.
Proof.
  intro E. apply energy_loop in E. destruct E as (es & -> & Hes). simpl.
  induction Hes as [|p e good es (v & atoms & Ev & Ep & Ha & Hn & ->) _ IH];
    constructor; [|exact IH].
  exists v, atoms. split; [exact Ev|]. split; [exact Ep|].
  field. split; intro H; unfold Qeq in H; simpl in H; lia.
Qed.

Lemma energy_list_per_initial_cell_witness :
  Forall2
    (fun (p : Path) e =>
       exists v atoms,
         vasprun_xml (snd p) = Some (Some v)
         /\ POSCAR (snd p) = Some atoms
         /\ e * inject_Z (Z.of_nat atoms)
            == final_energy v * inject_Z (Z.of_nat 1))
    two_configurations [-10 / (2 / 1); (-19 # 2) / (2 / 1)].
Proof.
  apply (energy_list_per_initial_cell two_configurations 1). reflexivity.
Defined.

(** [energy_list_getter] returns exactly when every structure has a
    [vasprun.xml] that parses and a [POSCAR] with an atom in it, and, unless
    there is no structure at all, [initial_atoms_num] is not zero. *)
Theorem energy_list_getter_returns_iff (good : list Path) (n : nat) :
  (exists E_list, energy_list_getter good n = Ok E_list)
  <-> Forall (fun p => energy_readable (snd p)) good
      /\ (good = [] \/ n <> 0%nat).
Proof.
  unfold energy_list_getter. split.
  - intros [E_list E]. apply energy_loop in E.
    destruct E as (es & _ & Hes). split.
    + induction Hes as [|p e good es (v & atoms & Ev & Ep & Ha & _) _ IH];
        constructor; [|exact IH].
      split; [exists v; exact Ev|exists atoms; split; assumption].
    + destruct Hes as [|p e good es (v & atoms & _ & _ & _ & Hn & _) _];
        [left; reflexivity|right; exact Hn].
  - intros [Hall Hn].
    match goal with
    | |- exists E, for_each ?g ?body [] = Ok E =>
        enough (Hacc : forall acc, exists E, for_each g body acc = Ok E)
          by apply Hacc
    end.
    induction Hall as [|p good ((v & Ev) & atoms & Ep & Ha) _ IH];
      intro acc; simpl.
    + eexists. reflexivity.
    + destruct Hn as [Hn|Hn]; [discriminate Hn|].
      assert (Er : get_ratio (POSCAR (snd p)) n
                   = Ok (inject_Z (Z.of_nat atoms) / inject_Z (Z.of_nat n))).
      { unfold get_ratio. rewrite Ep.
        destruct (Nat.eqb_spec n 0); [contradiction|reflexivity]. }
      rewrite Ev, Er. cbn [bind].
      destruct (Qeq_bool _ 0) eqn:Ez.
      * apply (ratio_zero atoms n Hn) in Ez. contradiction.
      * cbn [bind]. apply IH. right. exact Hn.
Qed.

(** ** Vectorizer *)














Lemma dict_add_nonneg (d : Dict) (key : Q) :
  Forall (fun v => (0 <= v)%Z) (values d) ->
  Forall (fun v => (0 <= v)%Z) (values (dict_add d key 1)).
Proof.
  unfold values. induction d as [|[k v] d IH]; simpl; intro H; [exact H|].
  inversion H; subst.
  destruct (Qeq_bool k key); simpl; constructor; auto; lia.
Qed.

Lemma count_at_nonneg (atom : string) (lst : list (string * Q)) (dist : Q)
    (d : Dict) :
  (atom = "Po"%string
   \/ Forall (fun p => fst p <> "Po"%string) lst) ->
  Forall (fun v => (0 <= v)%Z) (values d) ->
  Forall (fun v => (0 <= v)%Z)
    (values (count_at [atom; "Po"%string] lst d dist)).
Proof.
  intros Hpo. unfold count_at. revert d.
  induction lst as [|[el distance] lst IH]; intros d Hd; simpl; [exact Hd|].
  apply IH.
  - destruct Hpo as [Hpo|Hpo]; [left; exact Hpo|right].
    inversion Hpo; assumption.
  - destruct (Qeq_bool dist distance); [|exact Hd].
    destruct (String.eqb_spec el atom) as [->|Hne];
      [apply dict_add_nonneg; exact Hd|].
    destruct (String.eqb_spec el "Po"%string) as [->|_]; [|exact Hd].
    exfalso. destruct Hpo as [Hpo|Hpo].
    + apply Hne. symmetry. exact Hpo.
    + inversion Hpo as [|? ? Hhd]; subst. apply Hhd. reflexivity.
Qed.

(** With the placeholder [Po] as the second species, as [get_nn_list] always
    calls [count_nn], no count is negative on a structure that has no [Po]
    neighbour, or when [Po] is itself the magnetic atom: the vector [z] of
    the reference structure is made of neighbour counts. *)
Theorem get_nn_list_nonnegative (t : NeighbourTable) (magnetic_atom : string)
    (nn_list : list Z) :
  magnetic_atom = "Po"%string
  \/ Forall (fun el => el <> "Po"%string) (tl (out_el t)) ->
  get_nn_list (Some t) magnetic_atom = Ok nn_list ->
  Forall (fun v => (0 <= v)%Z) nn_list.
Proof.
  intros Hpo. unfold get_nn_list, count_nn. intros [= <-].
  set (a := combine (tl (out_el t)) (tl (out_dist t))).
  set (lst := map _ (filter _ a)).
  assert (Hlst : magnetic_atom = "Po"%string
                 \/ Forall (fun p => fst p <> "Po"%string) lst).
  { destruct Hpo as [Hpo|Hpo]; [left; exact Hpo|right].
    apply Forall_forall. intros p Hp. unfold lst in Hp.
    apply in_map_iff in Hp. destruct Hp as ([el dist] & <- & Hin).
    apply filter_In in Hin. destruct Hin as [Hin _].
    apply in_combine_l in Hin. rewrite Forall_forall in Hpo.
    simpl. apply Hpo. exact Hin. }
  match goal with
  | |- Forall _ (values (fold_left _ ?ks ?d0)) =>
      assert (H0 : Forall (fun v => (0 <= v)%Z) (values d0));
      [|revert H0; generalize d0; generalize ks]
  end.
  - unfold values. rewrite map_map. simpl.
    apply Forall_forall. intros v Hv. apply in_map_iff in Hv.
    destruct Hv as (? & <- & _). lia.
  - intros ks. induction ks as [|k ks IH]; intros d0 H0; simpl; [exact H0|].
    apply IH. apply count_at_nonneg; assumption.
Qed.

Lemma get_nn_list_nonnegative_witness :
  Forall (fun v => (0 <= v)%Z) [2%Z].
Proof.
  apply (get_nn_list_nonnegative
           (mkNeighbourTable ["Fe"; "Fe"; "Fe"]%string [0; 3; 3]) "Fe").
  - right. repeat constructor; discriminate.
  - vm_compute. reflexivity.
Defined.

(** ** Assembler *)

(** A loop that appends one computed value per element is [map_result]. *)
Lemma for_each_map_result {A B C : Type} (f : A -> Result B) (g : B -> C)
    (l : list A) (acc : list C) :
  for_each l (fun acc x => y <- f x ;; Ok (acc ++ [g y])) acc
  = (ys <- map_result f l ;; Ok (acc ++ map g ys)).
Proof.
  revert acc. induction l as [|x l IH]; intro acc; simpl.
  - rewrite app_nil_r. reflexivity.
  - destruct (f x) as [y|e]; simpl; [|reflexivity].
    rewrite IH. destruct (map_result f l) as [ys|e]; simpl; [|reflexivity].
    rewrite <- app_assoc. reflexivity.
Qed.

Lemma map_result_ok {A B : Type} (f : A -> Result B) (l : list A)
    (ys : list B) :
  map_result f l = Ok ys -> Forall2 (fun x y => f x = Ok y) l ys.
Proof.
  revert ys. induction l as [|x l IH]; intros ys E; simpl in E.
  - injection E as <-. constructor.
  - destruct (f x) as [y|e] eqn:Ex; simpl in E; [|discriminate E].
    destruct (map_result f l) as [ys'|e]; simpl in E; [|discriminate E].
    injection E as <-. constructor; [exact Ex|apply IH; reflexivity].
Qed.

Lemma append_to_ones_ok (m : list (list Z)) (M : Matrix) :
  append_to_ones m = Ok M ->
  m <> []
  /\ Forall (fun r => length r = length (hd [] m)) m
  /\ M = map (fun r => 1 :: map inject_Z r) m.
Proof.
  unfold append_to_ones. destruct m as [|r m]; [discriminate|].
  destruct (forallb _ _) eqn:E; [|discriminate].
  intros [= <-]. split; [discriminate|]. split; [|reflexivity].
  apply Forall_forall. intros r' Hr'.
  rewrite forallb_forall in E. apply Nat.eqb_eq, E, Hr'.
Qed.

(** When [nn_matrix_getter] returns, the matrix has one row for each good
    structure, of which there is at least one; all rows have the same
    length, at most the number of structures; every row starts with 1 and
    goes on with the first shell counts of its structure. *)
Theorem nn_matrix_getter_shape (good : list Path) (atom : string)
    (nn_matrix : Matrix) :
  nn_matrix_getter good atom = Ok nn_matrix ->
  good <> []
  /\ length nn_matrix = length good
  /\ (exists c, (c <= length good - 1)%nat
                /\ Forall (fun r => length r = S c) nn_matrix)
  /\ Forall2
       (fun p r =>
          exists nn_list,
            get_nn_list (siman_POSCAR (snd p)) atom = Ok nn_list
            /\ r = 1 :: map inject_Z (firstn (length good - 1) nn_list))
       good nn_matrix.
Proof.
  unfold nn_matrix_getter. intro E.
  rewrite (for_each_map_result
             (fun p : Path => get_nn_list (siman_POSCAR (snd p)) atom)
             (firstn (length good - 1))) in E.
  destruct (map_result _ good) as [nns|e] eqn:Em; simpl in E;
    [|discriminate E].
  apply map_result_ok in Em.
  apply append_to_ones_ok in E. destruct E as (Hne & Hrect & ->).
  assert (Hlen := Forall2_length Em).
  split; [|split; [|split]].
  - intros ->. inversion Em; subst. apply Hne. reflexivity.
  - rewrite !length_map. symmetry. exact Hlen.
  - exists (length (hd [] (map (firstn (length good - 1)) nns))). split.
    + destruct nns as [|nn nns]; simpl; [lia|].
      rewrite length_firstn. lia.
    + apply Forall_forall. intros r Hr.
      apply in_map_iff in Hr. destruct Hr as (r' & <- & Hr').
      rewrite Forall_forall in Hrect. simpl.
      rewrite length_map. f_equal. apply Hrect, Hr'.
  - rewrite map_map. clear Hne Hrect Hlen.
    generalize (length good - 1)%nat as k. intro k.
    induction Em as [|p nn good' nns' Hp _ IH]; simpl; constructor;
      [|exact IH].
    exists nn. split; [exact Hp|reflexivity].
Qed.

Lemma nn_matrix_getter_shape_witness :
  length [[1; 2]; [1; -2]] = length two_configurations.
Proof.
  assert (E : nn_matrix_getter two_configurations "Fe"
              = Ok [[1; 2]; [1; -2]]) by (vm_compute; reflexivity).
  exact (proj1 (proj2 (nn_matrix_getter_shape _ _ _ E))).
Defined.

(** A good structure without its file under [siman_inputs] makes
    [nn_matrix_getter] raise [AttributeError]: [count_nn] returns [None] for
    it and [get_nn_list] asks that [None] for its values. *)
Theorem nn_matrix_getter_missing_poscar (good : list Path) (atom : string) :
  (exists p, In p good /\ siman_POSCAR (snd p) = None) ->
  nn_matrix_getter good atom = Raise AttributeError.
Proof.
  intros (p & Hp & Hnone). unfold nn_matrix_getter.
  rewrite (for_each_map_result
             (fun p : Path => get_nn_list (siman_POSCAR (snd p)) atom)
             (firstn (length good - 1))).
  assert (E : map_result
                (fun p : Path => get_nn_list (siman_POSCAR (snd p)) atom)
                good = Raise AttributeError).
  { clear - Hp Hnone. induction good as [|q good IH]; [destruct Hp|].
    simpl. destruct (siman_POSCAR (snd q)) as [t|] eqn:Eq.
    - destruct Hp as [->|Hp]; [congruence|].
      unfold get_nn_list at 1. simpl. rewrite (IH Hp). reflexivity.
    - reflexivity. }
  rewrite E. reflexivity.
Qed.

Lemma nn_matrix_getter_missing_poscar_witness :
  nn_matrix_getter unconverged_listing "Fe" = Raise AttributeError.
Proof.
  apply nn_matrix_getter_missing_poscar.
  eexists. split; [left; reflexivity|reflexivity].
Defined.

(** When the validator leaves no good structure, [sorted_matrix_getter]
    raises [ValueError]: the column of ones cannot be joined to an empty
    list of rows.  No matrix is returned, whatever the atom and the spin. *)
Theorem sorted_matrix_getter_no_good_structure (np : Numpy) (dir : Listing)
    (bad : list Path) (n : nat) (atom : string) (spin : Q) :
  find_good_structures (Some dir) = Ok ([], bad) ->
  sorted_matrix_getter (Some dir) (Some n) atom spin = Raise ValueError.
Proof.
  intro E. unfold sorted_matrix_getter. rewrite E. reflexivity.
Qed.

Lemma sorted_matrix_getter_no_good_structure_witness :
  sorted_matrix_getter (np := ExactNumpy.exact) (Some unconverged_listing)
    (Some 2%nat) "Fe" 2
  = Raise ValueError.
Proof.
  apply (sorted_matrix_getter_no_good_structure ExactNumpy.exact
           unconverged_listing unconverged_listing).
  vm_compute. reflexivity.
Defined.

Lemma sorted_matrix_wide_enough_witness :
  exists sorted_matrix,
    length sorted_matrix = 2%nat /\ wide_enough sorted_matrix.
Proof.
  assert (E : sorted_matrix_getter (np := ExactNumpy.exact)
                (Some two_configurations) (Some 2%nat) "Fe" 2
              = Ok ([[1; 2]; [1; -2]],
                    [[6; 12; -10 / (2 / 2)]; [6; -12; (-19 # 2) / (2 / 2)]],
                    two_configurations, []))
    by (vm_compute; reflexivity).
  eexists.
  apply (sorted_matrix_wide_enough ExactNumpy.exact _ _ _ _ _ _ _ _
           exact_laws E).
  repeat constructor; eexists; (split; [vm_compute; reflexivity|]);
    simpl; lia.
Defined.

(** ** Solvers on a matrix with fewer columns than rows *)

Lemma for_each_first_raise {A S : Type} (body : S -> A -> Result S)
    (xs : list A) (x0 : A) (ys : list A) (e : PyError) :
  (forall s x, In x xs -> exists s', body s x = Ok s') ->
  (forall s, body s x0 = Raise e) ->
  forall s, for_each (xs ++ x0 :: ys) body s = Raise e.
Proof.
  intros Hok Hraise. induction xs as [|x xs IH]; intro s; simpl.
  - rewrite Hraise. reflexivity.
  - destruct (Hok s x (or_introl eq_refl)) as [s' ->]. simpl.
    apply IH. intros s0 x' Hx'. apply Hok. right. exact Hx'.
Qed.

(** The leading block of size [i] of a matrix with [c] coefficient columns
    has [i] rows of [min i c] entries. *)
Lemma leading_shape_rect (sm : Matrix) (c i : nat) :
  Forall (fun r => length r = S c) sm -> (i <= length sm)%nat ->
  length (leading i (but_last_column sm)) = i
  /\ Forall (fun r => length r = Nat.min i c)
       (leading i (but_last_column sm)).
Proof.
  intros Hc Hi. unfold leading, but_last_column. split.
  - rewrite length_map, length_firstn, length_map. lia.
  - apply Forall_forall. intros r Hr.
    apply in_map_iff in Hr. destruct Hr as (r' & <- & Hr').
    apply in_firstn in Hr'.
    apply in_map_iff in Hr'. destruct Hr' as (r0 & <- & Hr0).
    rewrite Forall_forall in Hc.
    rewrite length_firstn, length_removelast, (Hc r0 Hr0). lia.
Qed.

Lemma is_square_rows (a : Matrix) (n : nat) :
  a <> [] -> Forall (fun r => length r = n) a ->
  is_square a = (n =? length a)%nat.
Proof.
  intros Hne Hall. unfold is_square.
  destruct (Nat.eqb_spec n (length a)) as [E|E].
  - apply forallb_forall. intros r Hr. rewrite Forall_forall in Hall.
    rewrite (Hall r Hr), E. apply Nat.eqb_refl.
  - destruct a as [|r a]; [contradiction|].
    inversion Hall; subst. simpl.
    destruct (Nat.eqb_spec (length r) (S (length a))) as [E'|_];
      [|reflexivity].
    simpl in E. contradiction.
Qed.

(** A sorted matrix with at least two rows and fewer coefficient columns
    than rows makes the exact solver raise [LinAlgError]: the first size
    beyond the number of columns has a leading block that is not square, and
    the solutions of the smaller sizes are lost with it. *)
Theorem exact_solver_raises_on_few_columns (np : Numpy) (sm : Matrix)
    (c : nat) :
  Forall (fun r => length r = S c) sm ->
  (c < length sm)%nat -> (2 <= length sm)%nat ->
  j_vector_exact sm = Raise LinAlgError.
Proof.
  intros Hc Hlt HN. unfold j_vector_exact.
  rewrite last_column_rows.
  2:{ apply Forall_forall. intros r Hr. rewrite Forall_forall in Hc.
      specialize (Hc r Hr). destruct r; [discriminate Hc|discriminate]. }
  cbn [bind].
  assert (Hlen : length (but_last_column sm) = length sm)
    by apply length_map.
  rewrite Hlen.
  set (i0 := Nat.max 2 (S c)).
  assert (Hi0 : (2 <= i0 <= length sm)%nat) by (unfold i0; lia).
  replace (seq 2 (length sm + 1 - 2))
    with (seq 2 (i0 - 2) ++ i0 :: seq (S i0) (length sm - i0)).
  2:{ replace (length sm + 1 - 2)%nat
        with ((i0 - 2) + S (length sm - i0))%nat by lia.
      rewrite seq_app. f_equal.
      replace (2 + (i0 - 2))%nat with i0 by lia. reflexivity. }
  rewrite for_each_first_raise with (e := LinAlgError); [reflexivity| |].
  - intros acc i Hi. apply in_seq in Hi.
    assert (Hic : (i <= c)%nat) by (unfold i0 in *; lia).
    destruct (leading_shape_rect sm c i Hc) as [Hrows Hcols]; [lia|].
    unfold exchange_coupling, linalg_det.
    rewrite (is_square_rows _ (Nat.min i c)), Hrows; [|
      intro E; rewrite E in Hrows; simpl in Hrows; lia|exact Hcols].
    replace (Nat.min i c =? i)%nat with true
      by (symmetry; apply Nat.eqb_eq; lia).
    cbn [bind]. destruct (negb _); eexists; reflexivity.
  - intro acc.
    destruct (leading_shape_rect sm c i0 Hc) as [Hrows Hcols]; [lia|].
    unfold exchange_coupling, linalg_det.
    rewrite (is_square_rows _ (Nat.min i0 c)), Hrows; [|
      intro E; rewrite E in Hrows; simpl in Hrows; lia|exact Hcols].
    replace (Nat.min i0 c =? i0)%nat with false
      by (symmetry; apply Nat.eqb_neq; unfold i0; lia).
    reflexivity.
Qed.

Lemma exact_solver_raises_on_few_columns_witness :
  j_vector_exact (np := ExactNumpy.exact)
    [[1; 2; -10]; [1; 1; -9]; [1; 0; -8]]
  = Raise LinAlgError.
Proof.
  apply (exact_solver_raises_on_few_columns ExactNumpy.exact _ 2).
  - repeat constructor.
  - simpl. lia.
  - simpl. lia.
Defined.

Lemma leading_columns_shape_rect (sm : Matrix) (c i : nat) :
  Forall (fun r => length r = S c) sm ->
  Forall (fun r => length r = Nat.min i c)
    (leading_columns i (but_last_column sm)).
Proof.
  intro Hc. unfold leading_columns, but_last_column.
  apply Forall_forall. intros r Hr.
  apply in_map_iff in Hr. destruct Hr as (r' & <- & Hr').
  apply in_map_iff in Hr'. destruct Hr' as (r0 & <- & Hr0).
  rewrite Forall_forall in Hc.
  rewrite length_firstn, length_removelast, (Hc r0 Hr0). lia.
Qed.

(** The least-squares solver returns on every sorted matrix with at least
    one coefficient column, also when there are fewer columns than rows:
    it gives one entry for each size from 2 to the number of rows, and the
    coupling vector of size [i] has [min i c - 1] entries, so that beyond
    the number of columns the vectors stop growing. *)
Theorem lstsq_solver_returns (np : Numpy) (sm : Matrix) (c : nat) :
  NumpyLaws np ->
  (1 <= c)%nat -> Forall (fun r => length r = S c) sm ->
  exists E_geom_list j_vectors_list,
    j_vector_lstsq sm = Ok (E_geom_list, j_vectors_list)
    /\ length E_geom_list = (length sm - 1)%nat
    /\ length j_vectors_list = (length sm - 1)%nat
    /\ forall i, (2 <= i <= length sm)%nat ->
         length (nth (i - 2) j_vectors_list []) = (Nat.min i c - 1)%nat.
Proof.
  intros laws Hc1 Hc.
  assert (Hne : Forall (fun r : list Q => r <> []) sm).
  { apply Forall_forall. intros r Hr. rewrite Forall_forall in Hc.
    specialize (Hc r Hr). destruct r; [discriminate Hc|discriminate]. }
  assert (Hsol : forall i, (2 <= i <= length sm)%nat ->
                   length (lstsq_solution sm i) = Nat.min i c).
  { intros i Hi. unfold lstsq_solution. rewrite (lstsq_length np laws).
    assert (Hs := leading_columns_shape_rect sm c i Hc).
    destruct (leading_columns i (but_last_column sm)) as [|r rest] eqn:E.
    - apply (f_equal (@length _)) in E.
      unfold leading_columns, but_last_column in E.
      rewrite !length_map in E. simpl in E. lia.
    - inversion Hs; subst. simpl. assumption. }
  assert (Erun :
    j_vector_lstsq sm
    = Ok (map (fun i => hd 0 (lstsq_solution sm i))
            (seq 2 (length sm + 1 - 2)),
          map (fun i => tl (lstsq_solution sm i))
            (seq 2 (length sm + 1 - 2)))).
  { unfold j_vector_lstsq.
    rewrite (last_column_rows sm Hne). simpl bind. cbv zeta.
    change (for_each (seq 2 (length sm + 1 - 2))
              (fun results i =>
                 Ok (results
                     ++ [lstsq (leading_columns i (but_last_column sm))
                           (map (fun r => last r 0) sm)]))
              [])
      with (for_each (seq 2 (length sm + 1 - 2))
              (fun results i => Ok (results ++ [lstsq_solution sm i])) []).
    rewrite (for_each_append (fun i => lstsq_solution sm i)). simpl bind.
    rewrite first_components_heads.
    - simpl. rewrite !map_map. reflexivity.
    - apply Forall_forall. intros x Hx.
      apply in_map_iff in Hx. destruct Hx as (i & <- & Hi).
      apply in_range in Hi. intro E.
      assert (L := Hsol i Hi). rewrite E in L. simpl in L. lia. }
  eexists _, _. split; [exact Erun|].
  split; [rewrite length_map, length_seq; lia|].
  split; [rewrite length_map, length_seq; lia|].
  intros i Hi. rewrite nth_map_seq by lia.
  replace (2 + (i - 2))%nat with i by lia.
  assert (L := Hsol i Hi).
  destruct (lstsq_solution sm i); simpl in *; lia.
Qed.

Lemma lstsq_solver_returns_witness :
  exists E_geom_list j_vectors_list,
    j_vector_lstsq (np := ExactNumpy.exact)
      [[1; 2; -10]; [1; 1; -9]; [1; 0; -8]]
    = Ok (E_geom_list, j_vectors_list)
    /\ length (nth 1 j_vectors_list []) = 1%nat.
Proof.
  assert (Hc : Forall (fun r : list Q => length r = 3%nat)
                 [[1; 2; -10]; [1; 1; -9]; [1; 0; -8]])
    by (repeat constructor).
  destruct (lstsq_solver_returns ExactNumpy.exact _ 2 exact_laws
              (le_S 1 1 (le_n 1)) Hc) as (E & Js & Erun & _ & _ & H).
  exists E, Js. split; [exact Erun|].
  apply (H 3%nat). simpl. lia.
Defined.

(** ** Estimator *)

Lemma T_c_run_loop (k_B : Q) (z : list Z) (Js : list (list Q)) :
  forall acc,
  for_each Js
    (fun T_c_list j_vector =>
       products <- multiply j_vector
                     (map inject_Z (firstn (length j_vector) z)) ;;
       Ok (T_c_list ++ [Qabs (2 * pi * sum products / (3 * k_B))]))
    acc
  = (us <- map_result (fun J => T_c_unrounded k_B J z) Js ;; Ok (acc ++ us)).
Proof.
  induction Js as [|J Js IH]; intro acc; simpl.
  - rewrite app_nil_r. reflexivity.
  - unfold T_c_unrounded at 1.
    destruct (multiply J _) as [products|e]; simpl; [|reflexivity].
    rewrite IH.
    destruct (map_result _ Js) as [us|e]; simpl; [|reflexivity].
    rewrite <- app_assoc. reflexivity.
Qed.

(** [Tc_list_getter] computes every temperature, stops at the first
    exception, and rounds at the end. *)
Lemma Tc_list_getter_run (k_B : Q) (Js : list (list Q)) (z : list Z) :
  Tc_list_getter k_B Js z
  = (us <- map_result (fun J => T_c_unrounded k_B J z) Js ;;
     Ok (map (fun t => round_digits t 1) us)).
Proof.
  unfold Tc_list_getter.
  assert (E := T_c_run_loop k_B z Js []). cbv zeta. rewrite E.
  destruct (map_result _ Js); reflexivity.
Qed.

Lemma multiply_cases (x y : list Q) :
  (length x = length y \/ length y = 1%nat \/ length x = 1%nat
   -> exists products, multiply x y = Ok products)
  /\ (~ (length x = length y \/ length y = 1%nat \/ length x = 1%nat)
      -> multiply x y = Raise ValueError).
Proof.
  unfold multiply.
  destruct (Nat.eqb_spec (length x) (length y));
    [split; [eexists; reflexivity|tauto]|].
  destruct (Nat.eqb_spec (length y) 1);
    [split; [eexists; reflexivity|tauto]|].
  destruct (Nat.eqb_spec (length x) 1);
    [split; [eexists; reflexivity|tauto]|].
  split; [tauto|reflexivity].
Qed.

(** The shapes [numpy] can multiply: the reference vector covers the
    coupling vector, or one of the two has a single entry. *)
Lemma T_c_unrounded_cases (k_B : Q) (J : list Q) (z : list Z) :
  ((length J <= length z)%nat \/ length z = 1%nat \/ length J = 1%nat
   -> exists u, T_c_unrounded k_B J z = Ok u)
  /\ (~ ((length J <= length z)%nat \/ length z = 1%nat
         \/ length J = 1%nat)
      -> T_c_unrounded k_B J z = Raise ValueError).
Proof.
  unfold T_c_unrounded.
  destruct (multiply_cases J (map inject_Z (firstn (length J) z)))
    as [Hok Hraise].
  rewrite length_map, length_firstn in Hok, Hraise.
  split; intro H.
  - destruct Hok as [products ->]; [lia|]. eexists. reflexivity.
  - rewrite Hraise; [reflexivity|lia].
Qed.

(** [Tc_list_getter] returns exactly when every coupling vector is no
    longer than the reference vector, or has a single entry, or the
    reference vector has a single entry; it then gives one temperature for
    each coupling vector.  Otherwise it raises [ValueError], and nothing
    else. *)
Theorem Tc_list_getter_returns_iff (k_B : Q) (Js : list (list Q))
    (z : list Z) :
  ((exists T_c_list, Tc_list_getter k_B Js z = Ok T_c_list)
   <-> Forall (fun J => (length J <= length z)%nat \/ length z = 1%nat
                        \/ length J = 1%nat) Js)
  /\ (forall T_c_list, Tc_list_getter k_B Js z = Ok T_c_list ->
       length T_c_list = length Js)
  /\ (forall e, Tc_list_getter k_B Js z = Raise e -> e = ValueError).
Proof.
  rewrite Tc_list_getter_run.
  induction Js as [|J Js (IHiff & IHlen & IHerr)]; simpl.
  - split; [|split].
    + split; [constructor|eexists; reflexivity].
    + intros T [= <-]. reflexivity.
    + discriminate.
  - destruct (T_c_unrounded_cases k_B J z) as [Hok Hraise].
    destruct (T_c_unrounded k_B J z) as [u|e] eqn:Eu; simpl.
    + assert (HJ : (length J <= length z)%nat \/ length z = 1%nat
                   \/ length J = 1%nat).
      { destruct (le_dec (length J) (length z)); [tauto|].
        destruct (Nat.eq_dec (length z) 1); [tauto|].
        destruct (Nat.eq_dec (length J) 1); [tauto|].
        assert (X : Ok u = Raise ValueError) by (apply Hraise; tauto).
        discriminate X. }
      destruct (map_result _ Js) as [us|e]; simpl in *.
      * split; [|split].
        -- split; [intros _; constructor; [exact HJ|]|eexists; reflexivity].
           apply IHiff. eexists. reflexivity.
        -- intros T [= <-]. simpl. f_equal. apply IHlen. reflexivity.
        -- discriminate.
      * split; [|split].
        -- split; [intros [T ET]; discriminate ET|].
           intro H. inversion H; subst.
           apply IHiff. assumption.
        -- discriminate.
        -- exact IHerr.
    + split; [|split].
      * split; [intros [T ET]; discriminate ET|].
        intro H. inversion H as [|? ? HJ _]; subst.
        destruct (Hok HJ) as [u Eu']. discriminate Eu'.
      * discriminate.
      * intros e' [= <-].
        destruct (le_dec (length J) (length z)) as [Hl|Hl];
          [destruct Hok as [u Eu']; [tauto|discriminate Eu']|].
        destruct (Nat.eq_dec (length z) 1) as [Hz|Hz];
          [destruct Hok as [u Eu']; [tauto|discriminate Eu']|].
        destruct (Nat.eq_dec (length J) 1) as [Hj|Hj];
          [destruct Hok as [u Eu']; [tauto|discriminate Eu']|].
        assert (X : Raise e = Raise ValueError) by (apply Hraise; tauto).
        injection X as ->. reflexivity.
Qed.



Lemma sum_opp (l l' : list Q) :
  Forall2 (fun a b => a == - b) l' l -> sum l' == - sum l.
Proof.
  intro H. unfold sum. rewrite !sum_fold_right.
  induction H as [|a b l' l Hab _ IH]; simpl; [ring|].
  rewrite Hab. lra.
Qed.

Lemma multiply_opp (x y : list Q) :
  match multiply (map Qopp x) y, multiply x y with
  | Ok p', Ok p => Forall2 (fun a b => a == - b) p' p
  | Raise e', Raise e => e' = e
  | _, _ => False
  end.
Proof.
  unfold multiply. rewrite length_map.
  destruct (length x =? length y)%nat.
  - clear. revert y. induction x as [|a x IH]; intro y; simpl; [constructor|].
    destruct y as [|b y]; simpl; constructor; [ring|apply IH].
  - destruct (length y =? 1)%nat.
    + induction x as [|a x IH]; simpl; constructor; [ring|exact IH].
    + destruct (length x =? 1)%nat; [|reflexivity].
      destruct x as [|a x]; simpl.
      * induction y as [|b y IH]; simpl; constructor; [ring|exact IH].
      * induction y as [|b y IH]; simpl; constructor; [ring|exact IH].
Qed.

Lemma T_c_unrounded_opp (k_B : Q) (J : list Q) (z : list Z) :
  match T_c_unrounded k_B (map Qopp J) z, T_c_unrounded k_B J z with
  | Ok u', Ok u => u' == u
  | Raise e', Raise e => e' = e
  | _, _ => False
  end.
Proof.
  unfold T_c_unrounded. rewrite length_map.
  assert (H := multiply_opp J (map inject_Z (firstn (length J) z))).
  destruct (multiply (map Qopp J) _) as [p'|e'],
    (multiply J _) as [p|e]; cbn [bind]; try exact H.
  apply sum_opp in H.
  rewrite <- (Qabs_opp (2 * pi * sum p / (3 * k_B))).
  apply Qabs_wd. rewrite H. unfold Qdiv. ring.
Qed.

(** Reversing the sign of every coupling constant changes nothing in what
    [Tc_list_getter] returns or raises: the estimate does not tell a
    ferromagnetic set of couplings from the opposite one. *)
Theorem Tc_list_getter_sign (k_B : Q) (Js : list (list Q)) (z : list Z) :
  Tc_list_getter k_B (map (map Qopp) Js) z = Tc_list_getter k_B Js z.
Proof.
  rewrite !Tc_list_getter_run.
  induction Js as [|J Js IH]; simpl; [reflexivity|].
  assert (H := T_c_unrounded_opp k_B J z).
  destruct (T_c_unrounded k_B (map Qopp J) z) as [u'|e'],
    (T_c_unrounded k_B J z) as [u|e]; try contradiction;
    cbn [bind]; [|rewrite H; reflexivity].
  destruct (map_result _ (map (map Qopp) Js)) as [us'|e'],
    (map_result _ Js) as [us|e]; cbn [bind] in *; try discriminate IH.
  - injection IH as IH. cbn [map].
    rewrite IH, (round_digits_comp u' u 1 H). reflexivity.
  - exact IH.
Qed.



(** ** The run as a whole *)

Lemma dict_get_none (key : string) (d : list (string * Q)) :
  dict_get key d = None <-> ~ In key (map fst d).
Proof.
  induction d as [|[k v] d IH]; simpl.
  - split; [intros _ []|reflexivity].
  - destruct (String.eqb_spec k key) as [->|Hne].
    + split; [discriminate|]. intro H. exfalso. apply H. left. reflexivity.
    + rewrite IH. split.
      * intros H [E|Hin]; [apply Hne; exact E|apply H; exact Hin].
      * intros H Hin. apply H. right. exact Hin.
Qed.

(** A run raises [KeyError] exactly for a magnetic atom that is not one of
    the eight species of [spin_dict]; this is decided before anything is
    read, so that for such an atom the files play no part. *)
Theorem solver_key_error_iff (np : Numpy) (k_B : Q)
    (vasp_inputs : option Listing) (input_POSCAR : option nat)
    (input_neighbours : option NeighbourTable) (magnetic_atom : string) :
  (exists key,
     solver k_B vasp_inputs input_POSCAR input_neighbours magnetic_atom
     = inl (KeyError key))
  <-> ~ In magnetic_atom
          ["Eu"; "Fe"; "Co"; "Ni"; "Cu"; "Sm"; "Nd"; "Gd"]%string.
Proof.
  change ["Eu"; "Fe"; "Co"; "Ni"; "Cu"; "Sm"; "Nd"; "Gd"]%string
    with (map fst spin_dict).
  rewrite <- dict_get_none. unfold solver.
  destruct (dict_get magnetic_atom spin_dict) as [spin|].
  - split; [|discriminate].
    intros [key E]. destruct (solver_with_spin _ _ _ _ _ _); discriminate E.
  - split; [reflexivity|]. intros _. eexists. reflexivity.
Qed.

(** What [sorted_matrix_getter] returns: at least one good structure, one
    row of the sorted matrix for each, and no empty row. *)
Lemma sorted_matrix_shape (np : Numpy) (vasp_inputs : option Listing)
    (input_POSCAR : option nat) (atom : string) (spin : Q)
    (nn_matrix sorted_matrix : Matrix) (good bad : list Path) :
  NumpyLaws np ->
  sorted_matrix_getter vasp_inputs input_POSCAR atom spin
  = Ok (nn_matrix, sorted_matrix, good, bad) ->
  good <> []
  /\ length sorted_matrix = length good
  /\ Forall (fun r => r <> []) sorted_matrix.
Proof.
  intros laws E. unfold sorted_matrix_getter in E.
  destruct (find_good_structures vasp_inputs) as [[good' bad']|e];
    cbn [bind] in E; [|discriminate E].
  destruct input_POSCAR as [n|]; [|discriminate E].
  destruct (energy_list_getter good' n) as [E_list|e] eqn:EE;
    cbn [bind] in E; [|discriminate E].
  destruct (nn_matrix_getter good' atom) as [nn|e] eqn:Enn;
    cbn [bind] in E; [|discriminate E].
  destruct (append_column (scale_by_spin nn spin) E_list) as [full|e] eqn:Ef;
    cbn [bind] in E; [|discriminate E].
  destruct (sort_by_last_column full) as [sm|e] eqn:Es;
    cbn [bind] in E; [|discriminate E].
  injection E as <- <- <- <-.
  (* the rows of the unsorted matrix *)
  unfold nn_matrix_getter in Enn.
  rewrite (for_each_map_result
             (fun p : Path => get_nn_list (siman_POSCAR (snd p)) atom)
             (firstn (length good' - 1))) in Enn.
  destruct (map_result _ good') as [nns|e] eqn:Em; cbn [bind app] in Enn;
    [|discriminate Enn].
  apply map_result_ok, Forall2_length in Em.
  apply append_to_ones_ok in Enn. destruct Enn as (Hne & _ & ->).
  unfold append_column, scale_by_spin in Ef.
  destruct (_ =? _)%nat eqn:El; [|discriminate Ef].
  apply Nat.eqb_eq in El. rewrite !length_map in El.
  apply (f_equal (fun r => match r with Ok x => x | Raise _ => [] end)) in Ef.
  cbv beta iota in Ef. subst full.
  set (full := map _ (combine _ E_list)) in *.
  assert (Hfull : length full = length good').
  { unfold full. rewrite length_map, length_combine, !length_map. lia. }
  assert (Hrows : Forall (fun r : list Q => r <> []) full).
  { apply Forall_forall. intros r Hr. unfold full in Hr.
    apply in_map_iff in Hr. destruct Hr as ([a e] & <- & _).
    simpl. destruct a; discriminate. }
  unfold sort_by_last_column in Es.
  rewrite (last_column_rows full Hrows) in Es. cbn [bind] in Es.
  apply (f_equal (fun r => match r with Ok x => x | Raise _ => [] end)) in Es.
  cbv beta iota in Es. subst sm.
  assert (Hp := argsort_perm np laws (map (fun r => last r 0) full)).
  rewrite length_map in Hp.
  split; [|split].
  - intros ->. destruct nns; [apply Hne; reflexivity|discriminate Em].
  - rewrite length_map, (Permutation_length Hp), length_seq. exact Hfull.
  - apply Forall_forall. intros r Hr.
    apply in_map_iff in Hr. destruct Hr as (i & <- & Hi).
    apply (Permutation_in _ Hp), in_seq in Hi.
    rewrite Forall_forall in Hrows. apply Hrows, nth_In. lia.
Qed.

Lemma j_vector_lstsq_one_row (np : Numpy) (r : list Q) :
  r <> [] -> j_vector_lstsq [r] = Ok ([], []).
Proof.
  intro Hr. unfold j_vector_lstsq.
  rewrite last_column_rows by (constructor; [exact Hr|constructor]).
  reflexivity.
Qed.

(** A run that ends without an exception had at least two good structures:
    with none the matrix cannot be assembled, and with one the list of
    least-squares vectors is empty and [plot_j_values] raises on it. *)
Theorem solver_completes_with_two (np : Numpy) (k_B : Q)
    (vasp_inputs : option Listing) (input_POSCAR : option nat)
    (input_neighbours : option NeighbourTable) (magnetic_atom : string)
    (report : Report) :
  NumpyLaws np ->
  solver k_B vasp_inputs input_POSCAR input_neighbours magnetic_atom
  = inr report ->
  (2 <= length (report_good report))%nat
  /\ length (report_sorted_matrix report) = length (report_good report)
  /\ length (report_j_lstsq report) = length (report_Tc_lstsq report)
  /\ length (report_j_exact report) = length (report_Tc_exact report).
Proof.
  intros laws E. unfold solver in E.
  destruct (dict_get magnetic_atom spin_dict) as [spin|]; [|discriminate E].
  destruct (solver_with_spin _ _ _ _ _ _) as [rep|e] eqn:Er;
    [|discriminate E].
  injection E as ->. unfold solver_with_spin in Er.
  destruct (sorted_matrix_getter _ _ _ _) as [[[[nn sm] good] bad]|e] eqn:Es;
    cbn [bind] in Er; [|discriminate Er].
  destruct (sorted_matrix_shape np _ _ _ _ _ _ _ _ laws Es)
    as (Hne & Hlen & Hrows).
  destruct (j_vector_exact sm) as [[Ege je]|e]; cbn [bind] in Er;
    [|discriminate Er].
  destruct (j_vector_lstsq sm) as [[Egl jl]|e] eqn:El; cbn [bind] in Er;
    [|discriminate Er].
  destruct (get_nn_list _ _) as [z|e]; cbn [bind] in Er; [|discriminate Er].
  destruct (Tc_list_getter k_B je z) as [Te|e] eqn:ETe; cbn [bind] in Er;
    [|discriminate Er].
  destruct (Tc_list_getter k_B jl z) as [Tl|e] eqn:ETl; cbn [bind] in Er;
    [|discriminate Er].
  destruct (write_output jl z); cbn [bind] in Er; [|discriminate Er].
  destruct (if (length je =? 0)%nat then _ else _); cbn [bind] in Er;
    [|discriminate Er].
  destruct (plot_j_values jl) eqn:Ep; cbn [bind] in Er; [|discriminate Er].
  destruct (plot_E_tot sm); cbn [bind] in Er; [|discriminate Er].
  apply (f_equal (fun r => match r with Ok x => x | Raise _ => report end))
    in Er.
  cbv beta iota in Er. subst report. cbn.
  split; [|split; [exact Hlen|split]].
  - destruct good as [|p [|q good]]; [contradiction| |simpl; lia].
    exfalso.
    destruct sm as [|r [|r' sm]]; try discriminate Hlen.
    inversion Hrows; subst.
    rewrite j_vector_lstsq_one_row in El by assumption.
    injection El as <- <-. discriminate Ep.
  - rewrite Tc_list_getter_run in ETl.
    destruct (map_result _ jl) as [us|e] eqn:Em; [|discriminate ETl].
    cbn [bind] in ETl.
    apply (f_equal (fun r => match r with Ok x => x | Raise _ => [] end))
      in ETl.
    cbv beta iota in ETl. subst Tl.
    rewrite length_map. apply (Forall2_length (map_result_ok _ _ _ Em)).
  - rewrite Tc_list_getter_run in ETe.
    destruct (map_result _ je) as [us|e] eqn:Em; [|discriminate ETe].
    cbn [bind] in ETe.
    apply (f_equal (fun r => match r with Ok x => x | Raise _ => [] end))
      in ETe.
    cbv beta iota in ETe. subst Te.
    rewrite length_map. apply (Forall2_length (map_result_ok _ _ _ Em)).
Qed.

Lemma solver_completes_with_two_witness :
  exists report,
    solver (np := ExactNumpy.exact) (8617333262 # 100000000000000)
      (Some two_configurations) (Some 2%nat)
      (Some (mkNeighbourTable ["Fe"; "Fe"; "Fe"]%string [0; 3; 3])) "Fe"
    = inr report
    /\ (2 <= length (report_good report))%nat.
Proof.
  destruct (solver (np := ExactNumpy.exact) (8617333262 # 100000000000000)
              (Some two_configurations) (Some 2%nat)
              (Some (mkNeighbourTable ["Fe"; "Fe"; "Fe"]%string [0; 3; 3]))
              "Fe") as [e|report] eqn:E.
  - vm_compute in E. discriminate E.
  - exists report. split; [reflexivity|].
    apply (solver_completes_with_two ExactNumpy.exact _ _ _ _ _ report
             exact_laws E).
Defined.

Lemma j_vector_exact_one_row (np : Numpy) (r : list Q) :
  r <> [] -> j_vector_exact [r] = Ok ([], []).
Proof.
  intro Hr. unfold j_vector_exact.
  rewrite last_column_rows by (constructor; [exact Hr|constructor]).
  reflexivity.
Qed.

(** With exactly one good structure a run raises [IndexError]: both solvers
    return empty lists, the report is written, the figure of the exact
    couplings is skipped, and [plot_j_values] then asks the empty list of
    least-squares vectors for its last entry. *)
Theorem solver_single_structure (np : Numpy) (k_B : Q)
    (vasp_inputs : option Listing) (input_POSCAR : option nat)
    (t : NeighbourTable) (magnetic_atom : string) (spin : Q)
    (nn_matrix sorted_matrix : Matrix) (p : Path) (bad : list Path) :
  NumpyLaws np ->
  dict_get magnetic_atom spin_dict = Some spin ->
  sorted_matrix_getter vasp_inputs input_POSCAR magnetic_atom spin
  = Ok (nn_matrix, sorted_matrix, [p], bad) ->
  solver k_B vasp_inputs input_POSCAR (Some t) magnetic_atom
  = inl (Raised IndexError).
Proof.
  intros laws Hspin Es. unfold solver, solver_with_spin.
  rewrite Hspin, Es. cbn [bind].
  destruct (sorted_matrix_shape np _ _ _ _ _ _ _ _ laws Es)
    as (_ & Hlen & Hrows).
  destruct sorted_matrix as [|r [|r' sm]]; try discriminate Hlen.
  inversion Hrows; subst.
  rewrite j_vector_exact_one_row, j_vector_lstsq_one_row by assumption.
  cbn [bind]. unfold get_nn_list. cbn [count_nn bind]. reflexivity.
Qed.

Lemma solver_single_structure_witness :
  solver (np := ExactNumpy.exact) (8617333262 # 100000000000000)
    (Some one_configuration) (Some 2%nat)
    (Some (mkNeighbourTable ["Fe"; "Fe"; "Fe"]%string [0; 3; 3])) "Fe"
  = inl (Raised IndexError).
Proof.
  apply (solver_single_structure ExactNumpy.exact _ _ _ _ _ 2
           [[1]] [[6; -10 / (2 / 2)]]
           (nth 0 two_configurations (""%string, converged_folder 0)) []).
  - exact exact_laws.
  - reflexivity.
  - vm_compute. reflexivity.
Defined.

(** ** The reference folder and the most stable structure *)

Lemma lookup_In (name : string) (dir : Listing) (f : Folder) :
  lookup name dir = Some f -> In (name, f) dir.
Proof.
  induction dir as [|[n g] dir IH]; simpl; [discriminate|].
  destruct (String.eqb_spec n name) as [->|_].
  - intros [= ->]. left. reflexivity.
  - intro H. right. apply IH, H.
Qed.

(** When [find_good_structures] returns and the reference folder [fm0] is
    converged, [fm0] is in the list of good structures: its moment is the
    reference, and no moment is below 0.9 times itself. *)
Theorem reference_folder_is_good (dir : Listing) (good bad : list Path)
    (f : Folder) :
  find_good_structures (Some dir) = Ok (good, bad) ->
  lookup "fm0" dir = Some f ->
  convergence_true f ->
  In ("fm0"%string, f) good.
Proof.
  intros E Hl Hc. unfold find_good_structures in E. simpl in E.
  apply classify_loop_filter in E. destruct E as (-> & _ & Hfiles).
  simpl. apply filter_In. split; [apply lookup_In, Hl|].
  rewrite Forall_forall in Hfiles.
  assert (Hf := Hfiles _ (lookup_In _ _ _ Hl)). simpl in Hf.
  unfold accepted, fm0_outcar. rewrite Hl. simpl snd.
  rewrite (is_good_structure_converged f _ Hf Hc).
  replace (Qltb _ _) with false; [reflexivity|].
  symmetry. apply Qltb_ge, own_moment_passes.
Qed.

Lemma reference_folder_is_good_witness :
  In ("fm0"%string,
      mkFolder (Some (Some (mkVasprun true true true (-10)))) true
        (Some (Some 4)) (Some 2%nat)
        (Some (mkNeighbourTable ["Fe"; "Fe"; "Fe"]%string [0; 3; 3])))
    two_configurations.
Proof.
  apply (reference_folder_is_good two_configurations two_configurations []).
  - vm_compute. reflexivity.
  - reflexivity.
  - eexists. repeat split.
Defined.

Lemma last_column_ok (m : Matrix) (col : list Q) :
  last_column m = Ok col ->
  col = map (fun r => last r 0) m /\ Forall (fun r => r <> []) m.
Proof.
  unfold last_column.
  enough (H : forall acc,
             for_each m
               (fun col r =>
                  match r with
                  | [] => Raise IndexError
                  | _ => Ok (col ++ [last r 0])
                  end) acc = Ok col ->
             col = acc ++ map (fun r => last r 0) m
             /\ Forall (fun r => r <> []) m) by apply H.
  induction m as [|r m IH]; intros acc E; simpl in E.
  - injection E as <-. rewrite app_nil_r. split; constructor.
  - destruct r as [|x r]; [discriminate E|]. cbn [bind] in E.
    apply IH in E. destruct E as [-> Hall].
    rewrite <- app_assoc. split; [reflexivity|].
    constructor; [discriminate|exact Hall].
Qed.

Lemma sort_by_last_column_ok (np : Numpy) (m sm : Matrix) :
  NumpyLaws np ->
  sort_by_last_column m = Ok sm ->
  Sorted Qle (map (fun r => last r 0) sm)
  /\ Permutation m sm.
Proof.
  intros laws E. unfold sort_by_last_column in E.
  destruct (last_column m) as [col|e] eqn:Ec; cbn [bind] in E;
    [|discriminate E].
  apply last_column_ok in Ec. destruct Ec as [-> _].
  apply (f_equal (fun r => match r with Ok x => x | Raise _ => [] end)) in E.
  cbv beta iota in E. subst sm. split.
  - rewrite map_map.
    erewrite map_ext;
      [apply (argsort_sorted np laws (map (fun r => last r 0) m))|].
    intro i. symmetry. exact (map_nth (fun r => last r 0) m [] i).
  - rewrite <- (rows_by_position m []) at 1.
    apply Permutation_map, Permutation_sym.
    rewrite <- (length_map (fun r => last r 0) m).
    apply (argsort_perm np laws).
Qed.

(** The first row of the sorted matrix is a structure of lowest energy: its
    last entry is not above the last entry of any row. *)
Theorem most_stable_first (np : Numpy) (vasp_inputs : option Listing)
    (input_POSCAR : option nat) (atom : string) (spin : Q)
    (nn_matrix sorted_matrix : Matrix) (good bad : list Path) :
  NumpyLaws np ->
  sorted_matrix_getter vasp_inputs input_POSCAR atom spin
  = Ok (nn_matrix, sorted_matrix, good, bad) ->
  forall r, In r sorted_matrix ->
    last (hd [] sorted_matrix) 0 <= last r 0.
Proof.
  intros laws E. unfold sorted_matrix_getter in E.
  destruct (find_good_structures vasp_inputs) as [[good' bad']|e];
    cbn [bind] in E; [|discriminate E].
  destruct input_POSCAR as [n|]; [|discriminate E].
  destruct (energy_list_getter good' n) as [E_list|e];
    cbn [bind] in E; [|discriminate E].
  destruct (nn_matrix_getter good' atom) as [nn|e];
    cbn [bind] in E; [|discriminate E].
  destruct (append_column (scale_by_spin nn spin) E_list) as [full|e];
    cbn [bind] in E; [|discriminate E].
  destruct (sort_by_last_column full) as [sm|e] eqn:Es;
    cbn [bind] in E; [|discriminate E].
  injection E as <- <- <- <-.
  destruct (sort_by_last_column_ok np full sm laws Es) as [Hs _].
  apply Sorted_StronglySorted in Hs; [|exact Qle_trans].
  intros r Hr. destruct sm as [|r0 sm]; [destruct Hr|].
  simpl in Hs. apply StronglySorted_inv in Hs. destruct Hs as [_ Hall].
  destruct Hr as [->|Hr]; [apply Qle_refl|].
  rewrite Forall_forall in Hall. apply Hall.
  apply in_map_iff. exists r. split; [reflexivity|exact Hr].
Qed.

Lemma most_stable_first_witness :
  last (hd [] [[6; 12; -10 / (2 / 2)]; [6; -12; (-19 # 2) / (2 / 2)]]) 0
  <= last [6; -12; (-19 # 2) / (2 / 2)] 0.
Proof.
  apply (most_stable_first ExactNumpy.exact (Some two_configurations)
           (Some 2%nat) "Fe" 2 [[1; 2]; [1; -2]] _ two_configurations []
           exact_laws).
  - vm_compute. reflexivity.
  - right. left. reflexivity.
Defined.
